(** * The URL deobfuscation of mov_cli_films.vidsrcto.scraper

    A shallow embedding of [VidSrcToScraper.__deobf]
    (src/mov_cli_films/vidsrcto/scraper.py, lines 105-136) and of the
    parts of the Python runtime it calls: [str.replace],
    [base64.b64decode], [bytearray] indexing, [bytes.decode] and
    [urllib.parse.unquote].

    Python integers are unbounded, so every integer is a [Z]; a [str] is
    the list of its code points, a [bytes] or [bytearray] the list of
    its elements, each in [0, 256).  An exception is a value of [exn]
    carried by the error monad [result]. *)

From Stdlib Require Import ZArith List Lia String Ascii.
From Stdlib Require Import Decimal DecimalString.
From stdpp Require Import base list list_numbers.

Open Scope Z_scope.

(** ** Exceptions and the error monad *)

Inductive exn : Type :=
  | ValueError
  | BinasciiError
  | UnicodeDecodeError
  | IndexError
  | TypeError
  | AttributeError.

Inductive result (A : Type) : Type :=
  | Ok (a : A)
  | Raise (e : exn).

Arguments Ok {A} a.
Arguments Raise {A} e.

Definition bind {A B : Type} (m : result A) (k : A -> result B) : result B :=
  match m with
  | Ok a => k a
  | Raise e => Raise e
  end.

Notation "x <- m ;; k" := (bind m (fun x => k))
  (at level 100, m at next level, right associativity,
   format "'[v' x  <-  m  ;;  '/' k ']'").

(** [for x in it: body] over explicit loop state. *)
Fixpoint for_in {St : Type} (it : list Z) (body : Z -> St -> result St)
    (st : St) : result St :=
  match it with
  | [] => Ok st
  | x :: it' => st' <- body x st ;; for_in it' body st'
  end.

(** ** Values *)

(** The dynamically typed values the function can hold in a variable whose
    type the code tests or that it returns. *)
Inductive pyobj : Type :=
  | PNone
  | PBool (b : bool)
  | PInt (n : Z)
  | PStr (s : list Z)
  | PBytes (b : list Z)
  | PByteArray (b : list Z).

Definition is_byte (x : Z) : Prop := 0 <= x < 256.
Definition is_byteb (x : Z) : bool := (0 <=? x) && (x <? 256).

(** A string literal as a [str]: one code point per character. *)
Definition str (s : string) : list Z :=
  map (fun a => Z.of_N (N_of_ascii a)) (list_ascii_of_string s).

(** [len(x)] *)
Definition len {A : Type} (l : list A) : Z := Z.of_nat (length l).

(** [range(n)] *)
Definition range (n : Z) : list Z := seqZ 0 n.

(** [x[i]] on a sequence: a negative index counts from the end, an index
    out of range raises [IndexError]. *)
Definition getitem {A : Type} (l : list A) (i : Z) : result A :=
  let i' := if i <? 0 then i + len l else i in
  if (i' <? 0) || (len l <=? i') then Raise IndexError
  else match l !! Z.to_nat i' with
       | Some x => Ok x
       | None => Raise IndexError
       end.

(** [b[i] = v] on a [bytearray]: the value is checked to be in
    [range(256)] ([ValueError]), then the index ([IndexError]). *)
Definition setitem (b : list Z) (i : Z) (v : Z) : result (list Z) :=
  if negb (is_byteb v) then Raise ValueError
  else
    let i' := if i <? 0 then i + len b else i in
    if (i' <? 0) || (len b <=? i') then Raise IndexError
    else Ok (<[Z.to_nat i' := v]> b).

(** [bytearray(n)]: [n] zero bytes. *)
Definition bytearray_zeros (n : Z) : list Z := replicate (Z.to_nat n) 0.

(** [ord(c)]: the code point of a one-character string. *)
Definition ord (c : list Z) : result Z :=
  match c with
  | [x] => Ok x
  | _ => Raise TypeError
  end.

(** ** [str.replace] with one-character arguments *)

Fixpoint replace (old new : Z) (s : list Z) : list Z :=
  match s with
  | [] => []
  | c :: s' => (if c =? old then new else c) :: replace old new s'
  end.

(** ** [base64.b64decode(s)] with its default arguments

    [b64decode] turns a [str] argument into bytes with
    [s.encode('ascii')], raising [ValueError] on a non-ASCII character,
    and calls [binascii.a2b_base64] in its non-strict mode. *)

(** [table_a2b_base64]: the value of a base64 digit, 255 (the table's
    -1 as an unsigned char) for every other character. *)
Definition table_a2b_base64 (c : Z) : Z :=
  if (65 <=? c) && (c <=? 90) then c - 65
  else if (97 <=? c) && (c <=? 122) then c - 71
  else if (48 <=? c) && (c <=? 57) then c + 4
  else if c =? 43 then 62
  else if c =? 47 then 63
  else 255.

Definition BASE64_PAD : Z := 61.

(** The loop of [binascii_a2b_base64_impl] with [strict_mode = 0].  The
    written bytes are kept only when the loop reaches [done] or ends
    with [quad_pos = 0]; otherwise the buffer is dropped and
    [binascii.Error] raised. *)
Fixpoint a2b_base64_loop (ascii_data : list Z) (quad_pos leftchar pads : Z)
    (bin_data : list Z) : result (list Z) :=
  match ascii_data with
  | [] => if quad_pos =? 0 then Ok bin_data else Raise BinasciiError
  | this_ch :: rest =>
      if this_ch =? BASE64_PAD then
        if 2 <=? quad_pos then
          if 4 <=? quad_pos + (pads + 1) then Ok bin_data
          else a2b_base64_loop rest quad_pos leftchar (pads + 1) bin_data
        else a2b_base64_loop rest quad_pos leftchar pads bin_data
      else
        let d := table_a2b_base64 this_ch in
        if 64 <=? d then a2b_base64_loop rest quad_pos leftchar pads bin_data
        else if quad_pos =? 0 then
          a2b_base64_loop rest 1 d 0 bin_data
        else if quad_pos =? 1 then
          a2b_base64_loop rest 2 (Z.land d 15) 0
            (bin_data ++ [Z.land (Z.lor (Z.shiftl leftchar 2) (Z.shiftr d 4)) 255])
        else if quad_pos =? 2 then
          a2b_base64_loop rest 3 (Z.land d 3) 0
            (bin_data ++ [Z.land (Z.lor (Z.shiftl leftchar 4) (Z.shiftr d 2)) 255])
        else
          a2b_base64_loop rest 0 0 0
            (bin_data ++ [Z.land (Z.lor (Z.shiftl leftchar 6) d) 255])
  end.

Definition a2b_base64 (data : list Z) : result (list Z) :=
  a2b_base64_loop data 0 0 0 [].

Definition is_ascii (c : Z) : bool := (0 <=? c) && (c <? 128).

(** [_bytes_from_decode_data] on a [str]. *)
Definition bytes_from_decode_data (s : list Z) : result (list Z) :=
  if forallb is_ascii s then Ok s else Raise ValueError.

Definition b64decode (s : list Z) : result (list Z) :=
  data <- bytes_from_decode_data s ;;
  a2b_base64 data.

(** ** [bytes.decode("utf-8", errors)]

    CPython's decoder scans the bytes; at a malformed sequence it calls
    the error handler with the span it rejects and resumes after it.
    [utf8_scan] is that scan: one [Scalar] per decoded code point, one
    [Malformed] per rejected span.  The span is one byte at an invalid
    start byte or when the second byte is rejected, two bytes when the
    third is, three when the fourth is, and the whole remainder when the
    data ends inside a sequence. *)

Inductive utf8_item : Type :=
  | Scalar (c : Z)
  | Malformed.

Definition IS_CONTINUATION_BYTE (ch : Z) : bool := (128 <=? ch) && (ch <? 192).

Fixpoint utf8_scan (s : list Z) : list utf8_item :=
  match s with
  | [] => []
  | ch :: s1 =>
      if ch <? 128 then Scalar ch :: utf8_scan s1
      else if ch <? 194 then Malformed :: utf8_scan s1
      else if ch <? 224 then
        match s1 with
        | [] => [Malformed]
        | ch2 :: s2 =>
            if negb (IS_CONTINUATION_BYTE ch2) then Malformed :: utf8_scan s1
            else Scalar (Z.shiftl ch 6 + ch2 - (Z.shiftl 192 6 + 128))
                   :: utf8_scan s2
        end
      else if ch <? 240 then
        match s1 with
        | [] => [Malformed]
        | ch2 :: s2 =>
            if negb (IS_CONTINUATION_BYTE ch2)
               || (if ch2 <? 160 then ch =? 224 else ch =? 237)
            then Malformed :: utf8_scan s1
            else
              match s2 with
              | [] => [Malformed]
              | ch3 :: s3 =>
                  if negb (IS_CONTINUATION_BYTE ch3)
                  then Malformed :: utf8_scan s2
                  else Scalar (Z.shiftl ch 12 + Z.shiftl ch2 6 + ch3
                               - (Z.shiftl 224 12 + Z.shiftl 128 6 + 128))
                         :: utf8_scan s3
              end
        end
      else if ch <? 245 then
        match s1 with
        | [] => [Malformed]
        | ch2 :: s2 =>
            if negb (IS_CONTINUATION_BYTE ch2)
               || (if ch2 <? 144 then ch =? 240 else ch =? 244)
            then Malformed :: utf8_scan s1
            else
              match s2 with
              | [] => [Malformed]
              | ch3 :: s3 =>
                  if negb (IS_CONTINUATION_BYTE ch3)
                  then Malformed :: utf8_scan s2
                  else
                    match s3 with
                    | [] => [Malformed]
                    | ch4 :: s4 =>
                        if negb (IS_CONTINUATION_BYTE ch4)
                        then Malformed :: utf8_scan s3
                        else Scalar (Z.shiftl ch 18 + Z.shiftl ch2 12
                                     + Z.shiftl ch3 6 + ch4
                                     - (Z.shiftl 240 18 + Z.shiftl 128 12
                                        + Z.shiftl 128 6 + 128))
                               :: utf8_scan s4
                    end
              end
        end
      else Malformed :: utf8_scan s1
  end.

(** [errors="strict"]: the first malformed span raises. *)
Fixpoint strict_errors (items : list utf8_item) : result (list Z) :=
  match items with
  | [] => Ok []
  | Scalar c :: items' => u <- strict_errors items' ;; Ok (c :: u)
  | Malformed :: _ => Raise UnicodeDecodeError
  end.

(** [errors="replace"]: each malformed span becomes U+FFFD. *)
Definition replace_errors (items : list utf8_item) : list Z :=
  map (fun it => match it with Scalar c => c | Malformed => 65533 end) items.

(** [b.decode("utf-8")] *)
Definition decode_utf8 (b : list Z) : result (list Z) :=
  strict_errors (utf8_scan b).

(** [b.decode("utf-8", "replace")] *)
Definition decode_utf8_replace (b : list Z) : list Z :=
  replace_errors (utf8_scan b).

(** ** [urllib.parse.unquote(string)] with its default arguments *)

Definition PERCENT : Z := 37.

(** The value of a character of [_hexdig = '0123456789ABCDEFabcdef']. *)
Definition hexdig_value (c : Z) : option Z :=
  if (48 <=? c) && (c <=? 57) then Some (c - 48)
  else if (65 <=? c) && (c <=? 70) then Some (c - 55)
  else if (97 <=? c) && (c <=? 102) then Some (c - 87)
  else None.

(** [_hextobyte.get(key)]: the table maps each pair of hex digits to
    its byte. *)
Definition hextobyte (key : list Z) : option Z :=
  match key with
  | [a; b] =>
      match hexdig_value a, hexdig_value b with
      | Some x, Some y => Some (16 * x + y)
      | _, _ => None
      end
  | _ => None
  end.

(** [b.split(sep)] with a one-byte separator: never the empty list. *)
Fixpoint split (sep : Z) (b : list Z) : list (list Z) :=
  match b with
  | [] => [[]]
  | c :: b' =>
      if c =? sep then [] :: split sep b'
      else match split sep b' with
           | [] => [[c]]
           | bit :: bits => (c :: bit) :: bits
           end
  end.

(** The body of the loop [for item in bits[1:]] of [unquote_to_bytes]:
    what one item appends to [res]. *)
Definition unquote_item (item : list Z) : list Z :=
  match hextobyte (take 2 item) with
  | Some byte => byte :: drop 2 item
  | None => PERCENT :: item
  end.

(** [unquote_to_bytes] on the bytes of an ASCII string. *)
Definition unquote_to_bytes (string : list Z) : list Z :=
  match split PERCENT string with
  | [] => string
  | [_] => string
  | bit0 :: bits => bit0 ++ concat (map unquote_item bits)
  end.

(** The loop over [_asciire.split(string)], [_asciire] being
    [([\x00-\x7f]+)]: the maximal runs of ASCII characters are unquoted
    and decoded with [errors='replace'], the characters between them
    kept.  [run] is the ASCII run read so far. *)
Fixpoint unquote_runs (run : list Z) (string : list Z) : list Z :=
  match string with
  | [] => decode_utf8_replace (unquote_to_bytes run)
  | c :: string' =>
      if is_ascii c then unquote_runs (run ++ [c]) string'
      else decode_utf8_replace (unquote_to_bytes run)
             ++ c :: unquote_runs [] string'
  end.

Definition unquote (string : list Z) : list Z :=
  if negb (existsb (Z.eqb PERCENT) string) then string
  else unquote_runs [] string.

(** ** The scraper *)

Module VidSrcToScraper.

(** [bytes("8z5Ag5wgagfsOuhz", 'utf-8')]: the literal is ASCII, so its
    UTF-8 bytes are its code points. *)
Definition key_bytes : list Z := str "8z5Ag5wgagfsOuhz".

(** The body of [for i in range(256)]; the loop state is [(s, j)].  The
    right-hand side [s[j], s[i]] is read before either store. *)
Definition ksa_body (key_bytes : list Z) (i : Z) (st : list Z * Z)
    : result (list Z * Z) :=
  let '(s, j) := st in
  si <- getitem s i ;;
  kb <- getitem key_bytes (i mod len key_bytes) ;;
  let j := Z.land (j + si + kb) 255 in
  sj <- getitem s j ;;
  si <- getitem s i ;;
  s <- setitem s i sj ;;
  s <- setitem s j si ;;
  Ok (s, j).

(** The state of the second loop: the table, the two indices and the
    variable [decoded], a [bytearray] unless the last branch rebinds it
    to [False]. *)
Record loop_state : Type := LoopState {
  st_s : list Z;
  st_i : Z;
  st_k : Z;
  st_decoded : pyobj
}.

(** [decoded[index] = v] *)
Definition store_decoded (decoded : pyobj) (index v : Z) : result pyobj :=
  match decoded with
  | PByteArray b => b' <- setitem b index v ;; Ok (PByteArray b')
  | _ => Raise TypeError
  end.

(** The body of [for index in range(len(binary_data))]. *)
Definition decrypt_body (binary_data : list pyobj) (index : Z)
    (st : loop_state) : result loop_state :=
  let i := Z.land (st_i st + 1) 255 in
  si <- getitem (st_s st) i ;;
  let k := Z.land (st_k st + si) 255 in
  sk <- getitem (st_s st) k ;;
  si <- getitem (st_s st) i ;;
  s <- setitem (st_s st) i sk ;;
  s <- setitem s k si ;;
  si <- getitem s i ;;
  sk <- getitem s k ;;
  let t := Z.land (si + sk) 255 in
  item <- getitem binary_data index ;;
  match item with
  | PStr c =>
      o <- ord c ;;
      st_t <- getitem s t ;;
      decoded <- store_decoded (st_decoded st) index (Z.lxor o st_t) ;;
      Ok (LoopState s i k decoded)
  | PInt n =>
      st_t <- getitem s t ;;
      decoded <- store_decoded (st_decoded st) index (Z.lxor n st_t) ;;
      Ok (LoopState s i k decoded)
  | PBool b =>
      st_t <- getitem s t ;;
      decoded <- store_decoded (st_decoded st) index (Z.lxor (Z.b2z b) st_t) ;;
      Ok (LoopState s i k decoded)
  | _ => Ok (LoopState s i k (PBool false))
  end.

(** [decoded.decode("utf-8")]: a [bool] has no such attribute. *)
Definition decode_method (decoded : pyobj) : result (list Z) :=
  match decoded with
  | PByteArray b => decode_utf8 b
  | PBytes b => decode_utf8 b
  | _ => Raise AttributeError
  end.

(** The key schedule, lines 111-117. *)
Definition key_schedule : result (list Z * Z) :=
  for_in (range 256) (ksa_body key_bytes) (range 256, 0).

(** The decryption loop, lines 119-134, on the items of [binary_data]
    and the table [s] the key schedule left. *)
Definition decrypt (s : list Z) (binary_data : list pyobj) : result loop_state :=
  for_in (range (len binary_data)) (decrypt_body binary_data)
    (LoopState s 0 0 (PByteArray (bytearray_zeros (len binary_data)))).

(** Indexing a [bytes] object yields an [int]. *)
Definition bytes_items (b : list Z) : list pyobj := map PInt b.

Definition standardize (encoded_url : list Z) : list Z :=
  replace 45 43 (replace 95 47 encoded_url).

Definition __deobf (encoded_url : list Z) : result pyobj :=
  let standardized_input := standardize encoded_url in
  binary_data <- b64decode standardized_input ;;
  sj <- key_schedule ;;
  st <- decrypt (fst sj) (bytes_items binary_data) ;;
  text <- decode_method (st_decoded st) ;;
  Ok (PStr (unquote text)).

End VidSrcToScraper.

Import VidSrcToScraper.

(** ** The scraper object

    [__deobf] is a method: it receives [self], the object [__init__]
    built, and the token.  A call is a state transformer over the
    object; the method body reads and writes no attribute of it. *)

Record scraper (Response : Type) : Type := Scraper {
  base_url : list Z;
  sources : list Z;
  source : list Z;
  search_cache : list (list Z * Response)
}.

Definition deobf_call {Response : Type} (self : scraper Response)
    (encoded_url : list Z) : result pyobj * scraper Response :=
  (__deobf encoded_url, self).

(** ** The cipher as the specification states it (section 4.1, steps 3
    and 4): a table, indices reduced modulo 256, and a swap of two
    entries. *)

(** [S[i]] *)
Definition entry (S : list Z) (i : Z) : Z := default 0 (S !! Z.to_nat i).

(** Swap [S[i]] and [S[j]]: every other entry stays. *)
Definition swap (S : list Z) (i j : Z) : list Z :=
  imap (fun p x =>
          if decide (p = Z.to_nat i) then entry S j
          else if decide (p = Z.to_nat j) then entry S i
          else x) S.

(** The table and the index [j] after the first [n] iterations of the
    key schedule with key [K]. *)
Fixpoint KSA (K : list Z) (n : nat) : list Z * Z :=
  match n with
  | O => (seqZ 0 256, 0)
  | S m =>
      let '(T, j) := KSA K m in
      let i := Z.of_nat m in
      let j' := (j + entry T i + entry K (i mod len K)) mod 256 in
      (swap T i j', j')
  end.

(** The table and the indices after the keystream loop has consumed
    [n] positions, from table [T] and indices [i], [k]. *)
Fixpoint PRGA_state (T : list Z) (i k : Z) (n : nat) : list Z * Z * Z :=
  match n with
  | O => (T, i, k)
  | S m =>
      let i' := (i + 1) mod 256 in
      let k' := (k + entry T i') mod 256 in
      PRGA_state (swap T i' k') i' k' m
  end.

(** The bytes the keystream loop writes for the input [B]. *)
Fixpoint PRGA (T : list Z) (i k : Z) (B : list Z) : list Z :=
  match B with
  | [] => []
  | b :: B' =>
      let i' := (i + 1) mod 256 in
      let k' := (k + entry T i') mod 256 in
      let T' := swap T i' k' in
      let t := (entry T' i' + entry T' k') mod 256 in
      Z.lxor b (entry T' t) :: PRGA T' i' k' B'
  end.

(** ** A reference encoder (section 8, round-trip property)

    The inverse pipeline the specification asks a test to build:
    percent-encode the plaintext bytes as [urllib.parse.quote_from_bytes]
    does, encrypt with the same cipher and key, base64-encode, and put
    [-] and [_] in place of [+] and [/]. *)

Definition b2a_alphabet : list Z :=
  str "ABCDEFGHIJKLMNOPQRSTUVWXYZabcdefghijklmnopqrstuvwxyz0123456789+/".

Definition b2a_digit (v : Z) : Z := entry b2a_alphabet v.

(** The four 6-bit digits of the 24 bits of three bytes [x], [y], [z]. *)
Definition sextet0 (x : Z) : Z := Z.shiftr x 2.
Definition sextet1 (x y : Z) : Z := Z.lor (Z.shiftl (Z.land x 3) 4) (Z.shiftr y 4).
Definition sextet2 (y z : Z) : Z := Z.lor (Z.shiftl (Z.land y 15) 2) (Z.shiftr z 6).
Definition sextet3 (z : Z) : Z := Z.land z 63.

(** Three bytes make four digits; a last group of one or two bytes is
    filled with zero bits and padded with [=]. *)
Fixpoint b64encode (b : list Z) : list Z :=
  match b with
  | [] => []
  | [x] =>
      [b2a_digit (sextet0 x); b2a_digit (sextet1 x 0); BASE64_PAD; BASE64_PAD]
  | [x; y] =>
      [b2a_digit (sextet0 x); b2a_digit (sextet1 x y);
       b2a_digit (sextet2 y 0); BASE64_PAD]
  | x :: y :: z :: b' =>
      b2a_digit (sextet0 x) :: b2a_digit (sextet1 x y)
      :: b2a_digit (sextet2 y z) :: b2a_digit (sextet3 z)
      :: b64encode b'
  end.

(** The token alphabet: [-] for [+], [_] for [/]. *)
Definition substitute (s : list Z) : list Z :=
  replace 47 95 (replace 43 45 s).

(** The characters [quote_from_bytes] leaves alone: letters, digits,
    [_.-~] and the default [safe='/']. *)
Definition quote_safe (c : Z) : bool :=
  ((65 <=? c) && (c <=? 90)) || ((97 <=? c) && (c <=? 122))
  || ((48 <=? c) && (c <=? 57))
  || (c =? 95) || (c =? 46) || (c =? 45) || (c =? 126) || (c =? 47).

Definition hex_upper (v : Z) : Z := if v <? 10 then 48 + v else 55 + v.

Definition quote_byte (c : Z) : list Z :=
  if quote_safe c then [c]
  else [PERCENT; hex_upper (c / 16); hex_upper (c mod 16)].

Definition quote_from_bytes (b : list Z) : list Z :=
  concat (map quote_byte b).

Definition rc4 (K : list Z) (b : list Z) : list Z :=
  PRGA (fst (KSA K 256)) 0 0 b.

Definition encode (plain : list Z) : list Z :=
  substitute (b64encode (rc4 key_bytes (quote_from_bytes plain))).

(** ** Predicates and functions the properties are stated with *)

(** A table: 256 entries, each a byte. *)
Definition table (T : list Z) : Prop := length T = 256%nat /\ Forall is_byte T.

(** A 6-bit value. *)
Definition is_sextet (v : Z) : bool := (0 <=? v) && (v <? 64).

(** A digit of the alphabet is ASCII, is not the pad nor a substituted
    character, and the decoder's table gives its value back. *)
Definition digit_ok (v : Z) : bool :=
  let c := b2a_digit v in
  is_ascii c && negb (c =? BASE64_PAD) && negb (c =? 95) && negb (c =? 45)
  && (table_a2b_base64 c =? v).

(** Every character the encoder writes is ASCII and none is [_] or [-]. *)
Definition plain_b64_char (c : Z) : Prop :=
  is_ascii c = true /\ c <> 95 /\ c <> 45.

(** A sequence of ASCII characters. *)
Definition ascii_bytes (s : list Z) : Prop := Forall (fun c => is_ascii c = true) s.

(** What [unquote_to_bytes] joins from the pieces of the split. *)
Definition join_unquoted (bits : list (list Z)) : list Z :=
  match bits with
  | [] => []
  | bit0 :: bits' => bit0 ++ concat (map unquote_item bits')
  end.

(** The escape [quote_byte] writes for [c]: two ASCII hex digits, neither
    of them [%], that [_hextobyte] maps back to [c]. *)
Definition escape_ok (c : Z) : bool :=
  let h1 := hex_upper (c / 16) in
  let h2 := hex_upper (c mod 16) in
  negb (h1 =? PERCENT) && negb (h2 =? PERCENT) && is_ascii h1 && is_ascii h2
  && match hextobyte [h1; h2] with Some b => b =? c | None => false end.

(** A character [quote_byte] leaves alone is ASCII and is not [%]. *)
Definition safe_ok (c : Z) : bool :=
  negb (quote_safe c) || (negb (c =? PERCENT) && is_ascii c).

(** The substitution on one character. *)
Definition standard_char (c : Z) : Z :=
  if c =? 95 then 47 else if c =? 45 then 43 else c.

(** A base64 digit. *)
Definition is_digit (c : Z) : bool := table_a2b_base64 c <? 64.


(** ** The keystream

    The bytes the decryption loop xors into its input: position by
    position, what [s[t]] is after the swap. *)
Fixpoint keystream (T : list Z) (i k : Z) (n : nat) : list Z :=
  match n with
  | O => []
  | S m =>
      let i' := (i + 1) mod 256 in
      let k' := (k + entry T i') mod 256 in
      let T' := swap T i' k' in
      let t := (entry T' i' + entry T' k') mod 256 in
      entry T' t :: keystream T' i' k' m
  end.

(** [decoded] after the loop, when it is a bytearray. *)
Definition decoded_bytes (r : result loop_state) : option (list Z) :=
  match r with
  | Ok st => match st_decoded st with PByteArray d => Some d | _ => None end
  | Raise _ => None
  end.

(** The characters the pieces of [b.split(sep)] account for: each piece,
    and one separator before every piece but the first. *)
Fixpoint separated_size (bits : list (list Z)) : nat :=
  match bits with
  | [] => O
  | bit :: bits' => S (length bit + separated_size bits')
  end.

Definition pieces_size (bits : list (list Z)) : nat :=
  match bits with
  | [] => O
  | bit0 :: bits' => (length bit0 + separated_size bits')%nat
  end.

(** The bytes the decoding loop may still write for an open group at
    [quad_pos], counted in quarters of a byte per digit read. *)
Definition open_group_credit (quad_pos : Z) : Z :=
  if quad_pos =? 0 then 0 else 4 - quad_pos.

(** ** The scraper's other methods: [search], [scrape], [__get_embed]

    These methods call code that is not part of this module: the HTTP
    client, the HTML parser, TheMovieDB and the VidPlay resolver of the
    host framework.  Their types and operations are the fields of two
    classes; a method is a function of them, of the state of the world
    outside the object and of the object. *)

(** An outcome: a value or an exception. *)
Inductive outcome (E A : Type) : Type :=
  | Returned (a : A)
  | Raised (e : E).

Arguments Returned {E A} a.
Arguments Raised {E A} e.

(** A generator that ends: asked for its next item in a world, it stops,
    raises, or yields an item and what is left of itself. *)
Inductive generator (W E X : Type) : Type :=
  | Gen (next : W -> step W E X)
with step (W E X : Type) : Type :=
  | StopIteration (w : W)
  | GenRaise (e : E) (w : W)
  | Yield (x : X) (w : W) (rest : generator W E X).

Arguments Gen {W E X} next.
Arguments StopIteration {W E X} w.
Arguments GenRaise {W E X} e w.
Arguments Yield {W E X} x w rest.

(** The types of the host framework and of its libraries. *)
Class HostTypes : Type := {
  World : Type;
  Response : Type;
  Tag : Type;
  Float : Type;
  MetadataType : Type;
  Year : Type;
  Playable : Type;
  Failure : Type
}.

#[local] Set Warnings "-register-all".

(** A value [json.loads] returns. *)
Inductive json {H : HostTypes} : Type :=
  | JNull
  | JBool (b : bool)
  | JInt (n : Z)
  | JFloat (f : Float)
  | JStr (s : list Z)
  | JList (l : list json)
  | JDict (d : list (list Z * json)).

(** [mov_cli.Metadata]: the attributes the scraper reads. *)
Record Metadata {H : HostTypes} : Type := {
  metadata_id : list Z;
  metadata_title : list Z;
  metadata_type : MetadataType;
  metadata_year : Year
}.

(** [mov_cli.utils.EpisodeSelector] *)
Record EpisodeSelector : Type := {
  episode : Z;
  season : Z
}.

(** What [scrape] returns: [mov_cli.Series] or [mov_cli.Movie]. *)
Inductive media {H : HostTypes} : Type :=
  | Series (url : Playable) (title : list Z) (episode : EpisodeSelector)
  | Movie (url : Playable) (title : list Z) (year : Year).

(** The exceptions of the methods: a missing key, [MediaNotFound], the
    built-in exceptions of [exn], and what a collaborator raises. *)
Inductive raised {H : HostTypes} : Type :=
  | KeyError (key : list Z)
  | MediaNotFound (title : list Z)
  | Builtin (e : exn)
  | Foreign (e : Failure).

(** The operations of the collaborators.  A call that reaches the
    network takes the world and returns the world it leaves. *)
Class Collaborators {H : HostTypes} : Type := {
  SERIES : MetadataType;
  MetadataType_eq_dec : EqDecision MetadataType;
  float_is_zero : Float -> bool;
  (** [self.http_client.get(url)] *)
  http_client_get : list Z -> World -> outcome Failure Response * World;
  (** [response.status_code] *)
  status_code : Response -> Z;
  (** [response.json()] *)
  response_json : Response -> outcome Failure json;
  (** [self.soup(response).find('a', {'data-id': True})] *)
  soup_find_anchor : Response -> outcome Failure (option Tag);
  (** [tag.get("data-id", None)] on a tag that has the attribute *)
  tag_data_id : Tag -> list Z;
  (** ["{}".format(v)] for a value that is not a [str] *)
  format_value : json -> list Z;
  (** [self.tmdb.search(query, limit)] *)
  tmdb_search : list Z -> Z -> generator World Failure Metadata;
  (** [EpisodeSelector()] *)
  EpisodeSelector_default : EpisodeSelector;
  (** [VidPlay(self.http_client).resolve_source(vidplay_url)[0]] *)
  resolve_source_0 : pyobj -> World -> outcome Failure Playable * World
}.

#[global] Existing Instance MetadataType_eq_dec.

(** [d.get(k)] and [d[k] = v] on a dict kept as the list of its items in
    insertion order. *)
Fixpoint dict_get {V : Type} (d : list (list Z * V)) (k : list Z) : option V :=
  match d with
  | [] => None
  | (k', v) :: d' => if decide (k' = k) then Some v else dict_get d' k
  end.

Fixpoint dict_set {V : Type} (d : list (list Z * V)) (k : list Z) (v : V)
    : list (list Z * V) :=
  match d with
  | [] => [(k, v)]
  | (k', v') :: d' =>
      if decide (k' = k) then (k, v) :: d' else (k', v') :: dict_set d' k v
  end.

(** [str(n)] for an [int]. *)
Definition str_of_int (n : Z) : list Z :=
  str (NilZero.string_of_int (Z.to_int n)).

(** [template.format(arg)] for a template whose only braces are one
    pair [{}], as the two templates [__init__] sets are. *)
Fixpoint format1 (template arg : list Z) : list Z :=
  match template with
  | [] => []
  | c :: template' =>
      match template' with
      | c' :: rest =>
          if (c =? 123) && (c' =? 125) then arg ++ rest
          else c :: format1 template' arg
      | [] => [c]
      end
  end.

Section Methods.
Context {H : HostTypes} {C : Collaborators}.

(** The state a method runs in: the world and the object. *)
Definition state : Type := World * scraper Response.

(** A method body: from a state to an outcome and the state it leaves. *)
Definition action (A : Type) : Type := state -> outcome raised A * state.

Definition ret {A : Type} (a : A) : action A := fun st => (Returned a, st).

Definition raise {A : Type} (e : raised) : action A := fun st => (Raised e, st).

Definition and_then {A B : Type} (m : action A) (k : A -> action B) : action B :=
  fun st =>
    match m st with
    | (Returned a, st') => k a st'
    | (Raised e, st') => (Raised e, st')
    end.

(** The outcome of a call that leaves the state alone. *)
Definition pure_call {A : Type} (o : outcome Failure A) : action A :=
  match o with
  | Returned a => ret a
  | Raised e => raise (Foreign e)
  end.

(** The outcome of a call that acts on the world. *)
Definition world_call {A : Type} (f : World -> outcome Failure A * World)
    : action A :=
  fun st =>
    match f (fst st) with
    | (Returned a, w) => (Returned a, (w, snd st))
    | (Raised e, w) => (Raised (Foreign e), (w, snd st))
    end.

Definition set_search_cache (self : scraper Response)
    (cache : list (list Z * Response)) : scraper Response :=
  Scraper Response (base_url Response self) (sources Response self)
    (source Response self) cache.

(** [__init__] *)
Definition init : scraper Response :=
  Scraper Response (str "https://vidsrc.to")
    (str "https://vidsrc.to/ajax/embed/episode/{}/sources")
    (str "https://vidsrc.to/ajax/embed/source/{}") [].

(** [x[key]] on a JSON value, [key] a [str]. *)
Definition json_getitem (x : json) (key : list Z) : outcome raised json :=
  match x with
  | JDict d =>
      match dict_get d key with
      | Some v => Returned v
      | None => Raised (KeyError key)
      end
  | _ => Raised (Builtin TypeError)
  end.

(** The items [for source in x] visits. *)
Definition json_iter (x : json) : outcome raised (list json) :=
  match x with
  | JList l => Returned l
  | JDict d => Returned (map (fun kv => JStr (fst kv)) d)
  | JStr s => Returned (map (fun c => JStr [c]) s)
  | _ => Raised (Builtin TypeError)
  end.

(** [x == s], [s] a [str]. *)
Definition json_eq_str (x : json) (s : list Z) : bool :=
  match x with
  | JStr s' => bool_decide (s' = s)
  | _ => false
  end.

(** [bool(x)] *)
Definition truthy (x : json) : bool :=
  match x with
  | JNull => false
  | JBool b => b
  | JInt n => negb (n =? 0)
  | JFloat f => negb (float_is_zero f)
  | JStr s => match s with [] => false | _ => true end
  | JList l => match l with [] => false | _ => true end
  | JDict d => match d with [] => false | _ => true end
  end.

(** ["{}".format(x)] *)
Definition format_json (x : json) : list Z :=
  match x with
  | JStr s => s
  | _ => format_value x
  end.

Definition lift {A : Type} (o : outcome raised A) : action A :=
  fun st => (o, st).

(** [__get_embed], lines 95-103. *)
Definition get_embed (metadata : Metadata) (selector : EpisodeSelector)
    : action Response :=
  fun st =>
    let self := snd st in
    let media_type :=
      if decide (metadata_type metadata = SERIES) then str "tv" else str "movie" in
    let url :=
      base_url Response self ++ str "/embed/" ++ media_type ++ str "/"
      ++ metadata_id metadata in
    let url :=
      if decide (metadata_type metadata = SERIES)
      then url ++ str "/" ++ str_of_int (season selector)
               ++ str "/" ++ str_of_int (episode selector)
      else url in
    world_call (http_client_get url) st.

(** [search], lines 35-45, driven until the generator ends: the items
    it yields, how it ends, and the state it leaves. *)
Fixpoint search_from (results : generator World Failure Metadata) (st : state)
    {struct results} : list Metadata * outcome raised unit * state :=
  match results with
  | Gen next =>
      match next (fst st) with
      | StopIteration w => ([], Returned tt, (w, snd st))
      | GenRaise e w => ([], Raised (Foreign e), (w, snd st))
      | Yield search_result w rest =>
          match get_embed search_result EpisodeSelector_default (w, snd st) with
          | (Raised e, st') => ([], Raised e, st')
          | (Returned embed_response, st') =>
              if status_code embed_response =? 404 then search_from rest st'
              else
                let self :=
                  set_search_cache (snd st')
                    (dict_set (search_cache Response (snd st'))
                       (metadata_id search_result) embed_response) in
                let '(yielded, end_, st'') := search_from rest (fst st', self) in
                (search_result :: yielded, end_, st'')
          end
      end
  end.

Definition search (query : list Z) (limit : Z) (st : state)
    : list Metadata * outcome raised unit * state :=
  search_from (tmdb_search query limit) st.

(** The loop of lines 67-69: [vidplay_id] after the sources from
    [items] on. *)
Fixpoint find_vidplay (items : list json) (vidplay_id : json)
    : outcome raised json :=
  match items with
  | [] => Returned vidplay_id
  | source :: items' =>
      match json_getitem source (str "title") with
      | Raised e => Raised e
      | Returned title =>
          if json_eq_str title (str "Vidplay") then
            match json_getitem source (str "id") with
            | Raised e => Raised e
            | Returned id_ => find_vidplay items' id_
            end
          else find_vidplay items' vidplay_id
      end
  end.

(** [self.__deobf(get_source)]: a JSON value that is not a [str] has no
    [replace]. *)
Definition deobf_json (get_source : json) : outcome raised pyobj :=
  match get_source with
  | JStr encoded_url =>
      match __deobf encoded_url with
      | Ok v => Returned v
      | Raise e => Raised (Builtin e)
      end
  | _ => Raised (Builtin AttributeError)
  end.

Notation "x <~ m ;; k" := (and_then m (fun x => k))
  (at level 100, m at next level, right associativity).

(** What [scrape] does once it holds the cached response, lines 54-93. *)
Definition scrape_response (metadata : Metadata) (selector : EpisodeSelector)
    (embed_response : Response) : action media :=
  id_ <~ pure_call (soup_find_anchor embed_response) ;;
  match id_ with
  | None => raise (MediaNotFound (metadata_title metadata))
  | Some tag =>
      let id_ := tag_data_id tag in
      fun st =>
        (response <~ world_call
           (http_client_get (format1 (sources Response (snd st)) id_)) ;;
         sources_ <~ pure_call (response_json response) ;;
         result_ <~ lift (json_getitem sources_ (str "result")) ;;
         items <~ lift (json_iter result_) ;;
         vidplay_id <~ lift (find_vidplay items JNull) ;;
         if negb (truthy vidplay_id)
         then raise (MediaNotFound (metadata_title metadata))
         else
           fun st =>
             (response <~ world_call
                (http_client_get
                   (format1 (source Response (snd st)) (format_json vidplay_id))) ;;
              body <~ pure_call (response_json response) ;;
              result_ <~ lift (json_getitem body (str "result")) ;;
              get_source <~ lift (json_getitem result_ (str "url")) ;;
              vidplay_url <~ lift (deobf_json get_source) ;;
              url <~ world_call (resolve_source_0 vidplay_url) ;;
              if decide (metadata_type metadata = SERIES)
              then ret (Series url (metadata_title metadata) selector)
              else ret (Movie url (metadata_title metadata)
                          (metadata_year metadata))) st) st
  end.

(** [scrape], lines 50-93. *)
Definition scrape (metadata : Metadata) (selector : EpisodeSelector)
    : action media :=
  fun st =>
    match dict_get (search_cache Response (snd st)) (metadata_id metadata) with
    | None => (Raised (KeyError (metadata_id metadata)), st)
    | Some embed_response =>
        scrape_response metadata selector embed_response
          (fst st, set_search_cache (snd st) [])
    end.

End Methods.

(** ** A small world to run the methods in

    One site: the embed page of movie 603 has the anchor [abc]; its
    sources list two servers, the second titled Vidplay with id [v1];
    the source [v1] carries a token of the URL
    [https://example.com/video?id=42].  The embed page of movie 604 has
    the anchor [xyz], and its sources list no Vidplay server.  Every
    other URL answers 404.
    The world is the list of the URLs requested so far. *)

Inductive demo_type : Type := DemoSeries | DemoMovie.

Definition demo_type_eq_dec : EqDecision demo_type.
Proof. intros x y. unfold Decision. decide equality. Defined.

(** A response: its status, the [data-id] of the anchor of its page when
    it has one, and its JSON body: a list of titled servers, or the URL
    of a source. *)
Record demo_page : Type := {
  page_status : Z;
  page_anchor : option (list Z);
  page_servers : option (list (list Z * list Z));
  page_url : list Z
}.

#[global] Instance demo_types : HostTypes := {|
  World := list (list Z);
  Response := demo_page;
  Tag := list Z;
  Float := Empty_set;
  MetadataType := demo_type;
  Year := Z;
  Playable := pyobj;
  Failure := Empty_set
|}.

Definition demo_site (url : list Z) : demo_page :=
  if decide (url = str "https://vidsrc.to/embed/movie/603")
  then {| page_status := 200; page_anchor := Some (str "abc");
          page_servers := None; page_url := [] |}
  else if decide (url = str "https://vidsrc.to/ajax/embed/episode/abc/sources")
  then {| page_status := 200; page_anchor := None;
          page_servers := Some [(str "F2Cloud", str "f9");
                                (str "Vidplay", str "v1")];
          page_url := [] |}
  else if decide (url = str "https://vidsrc.to/embed/movie/604")
  then {| page_status := 200; page_anchor := Some (str "xyz");
          page_servers := None; page_url := [] |}
  else if decide (url = str "https://vidsrc.to/ajax/embed/episode/xyz/sources")
  then {| page_status := 200; page_anchor := None;
          page_servers := Some [(str "F2Cloud", str "f1")];
          page_url := [] |}
  else if decide (url = str "https://vidsrc.to/ajax/embed/source/v1")
  then {| page_status := 200; page_anchor := None; page_servers := None;
          page_url :=
            str "VfxvGYo3N8o0TmiOb5v3B6zRHOebv_ZqdjLzI3YEknENoxgTOw==" |}
  else {| page_status := 404; page_anchor := None;
          page_servers := None; page_url := [] |}.

(** The body: [{"result": [{"title": t, "id": i}, ...]}] for a list of
    servers, [{"result": {"url": u}}] otherwise. *)
Definition demo_json (p : demo_page) : @json demo_types :=
  match page_servers p with
  | Some servers =>
      JDict [(str "result",
              JList (map (fun s => JDict [(str "title", JStr (fst s));
                                          (str "id", JStr (snd s))])
                         servers))]
  | None => JDict [(str "result", JDict [(str "url", JStr (page_url p))])]
  end.

Definition demo_movie : @Metadata demo_types :=
  {| metadata_id := str "603"; metadata_title := str "The Matrix";
     metadata_type := DemoMovie; metadata_year := 1999 |}.

Definition demo_series : @Metadata demo_types :=
  {| metadata_id := str "1399"; metadata_title := str "Game of Thrones";
     metadata_type := DemoSeries; metadata_year := 2011 |}.

#[global] Instance demo : @Collaborators demo_types := {|
  SERIES := DemoSeries;
  MetadataType_eq_dec := demo_type_eq_dec;
  float_is_zero := fun f => match f : Empty_set with end;
  http_client_get := fun url w => (Returned (demo_site url), w ++ [url]);
  status_code := page_status;
  response_json := fun p => Returned (demo_json p);
  soup_find_anchor := fun p => Returned (page_anchor p);
  tag_data_id := fun tag => tag;
  format_value := fun _ => [];
  tmdb_search := fun _ _ =>
    Gen (fun w => Yield demo_series w
      (Gen (fun w => Yield demo_movie w (Gen (fun w => StopIteration w)))));
  EpisodeSelector_default := {| episode := 1; season := 1 |};
  resolve_source_0 := fun v w => (Returned v, w)
|}.

(** The world before any request, and a new scraper. *)
Definition demo_start : @state demo_types :=
  (@nil (list Z), @init demo_types).

(** The same, with one response in the cache under the id [key]. *)
Definition demo_cached (key url : list Z) : @state demo_types :=
  (@nil (list Z),
   @set_search_cache demo_types (@init demo_types) [(key, demo_site url)]).

(** ** Where the base64 decoder stops reading *)

(** Whether the decoding loop, reading [data] from [quad_pos] and
    [pads], meets a pad that closes a group: the [goto done] of
    [binascii_a2b_base64_impl]. *)
Fixpoint reaches_done (data : list Z) (quad_pos pads : Z) : bool :=
  match data with
  | [] => false
  | this_ch :: rest =>
      if this_ch =? BASE64_PAD then
        if 2 <=? quad_pos then
          if 4 <=? quad_pos + (pads + 1) then true
          else reaches_done rest quad_pos (pads + 1)
        else reaches_done rest quad_pos pads
      else if 64 <=? table_a2b_base64 this_ch then
        reaches_done rest quad_pos pads
      else if quad_pos =? 0 then reaches_done rest 1 0
      else if quad_pos =? 1 then reaches_done rest 2 0
      else if quad_pos =? 2 then reaches_done rest 3 0
      else reaches_done rest 0 0
  end.

(** ** UTF-8 and percent-encoding as their standards define them

    The two notions the properties of the last line of [__deobf] are
    stated with, written from the standards and not from the decoders
    above: the UTF-8 encoding of a sequence of Unicode scalar values,
    and the expansion of [%XX] escapes. *)

(** A Unicode scalar value: a code point that is not a surrogate. *)
Definition scalar_value (c : Z) : Prop :=
  0 <= c < 55296 \/ 57343 < c <= 1114111.

(** The one to four bytes that encode a scalar value. *)
Definition utf8_encode_char (c : Z) : list Z :=
  if c <? 128 then [c]
  else if c <? 2048 then [192 + c / 64; 128 + c mod 64]
  else if c <? 65536 then
    [224 + c / 4096; 128 + (c / 64) mod 64; 128 + c mod 64]
  else
    [240 + c / 262144; 128 + (c / 4096) mod 64; 128 + (c / 64) mod 64;
     128 + c mod 64].

Definition utf8_encode (text : list Z) : list Z :=
  concat (map utf8_encode_char text).

(** Valid UTF-8: the encoding of some sequence of scalar values. *)
Definition valid_utf8 (b : list Z) : Prop :=
  exists text, Forall scalar_value text /\ utf8_encode text = b.

(** The position of [c] in [l], counted from [i]. *)
Fixpoint index_from (c : Z) (l : list Z) (i : Z) : option Z :=
  match l with
  | [] => None
  | x :: l' => if x =? c then Some i else index_from c l' (i + 1)
  end.

(** The value of a hexadecimal digit, in either case. *)
Definition hex_value (c : Z) : option Z :=
  match index_from c (str "0123456789ABCDEF") 0 with
  | Some v => Some v
  | None => index_from c (str "0123456789abcdef") 0
  end.

(** Percent-decoding: every [%] followed by two hexadecimal digits
    becomes the byte they write; every other character stays. *)
Fixpoint percent_decode (s : list Z) : list Z :=
  match s with
  | [] => []
  | c :: s1 =>
      match s1 with
      | h1 :: h2 :: s3 =>
          match (if c =? PERCENT then hex_value h1 else None), hex_value h2 with
          | Some x, Some y => 16 * x + y :: percent_decode s3
          | _, _ => c :: percent_decode s1
          end
      | _ => c :: percent_decode s1
      end
  end.

(** [unquoted text url]: [url] is [text] with the escapes of each of
    its ASCII stretches expanded and the bytes that gives read as
    UTF-8; the characters that are not ASCII stay. *)
Inductive unquoted : list Z -> list Z -> Prop :=
  | unquoted_ascii (r : list Z) :
      ascii_bytes r ->
      unquoted r (decode_utf8_replace (percent_decode r))
  | unquoted_other (r : list Z) (c : Z) (rest out : list Z) :
      ascii_bytes r -> is_ascii c = false -> unquoted rest out ->
      unquoted (r ++ c :: rest)
        (decode_utf8_replace (percent_decode r) ++ c :: out).

(** Whether the two readings of a hexadecimal digit agree on [c]. *)
Definition hex_agree (c : Z) : bool :=
  match hex_value c, hexdig_value c with
  | Some a, Some b => a =? b
  | None, None => true
  | _, _ => false
  end.

(** * Properties *)

(** ** Bytes *)

Lemma is_byteb_spec x : is_byteb x = true <-> is_byte x.
Proof. unfold is_byteb, is_byte. rewrite andb_true_iff. lia. Qed.

Lemma land_255_mod x : Z.land x 255 = x mod 256.
Proof. change 255 with (Z.ones 8). now rewrite Z.land_ones by lia. Qed.

Lemma land_255_byte x : is_byte (Z.land x 255).
Proof. rewrite land_255_mod. unfold is_byte. apply Z.mod_pos_bound. lia. Qed.

Lemma mod_256_byte x : is_byte (x mod 256).
Proof. unfold is_byte. apply Z.mod_pos_bound. lia. Qed.

Lemma log2_byte a : is_byte a -> Z.log2 a < 8.
Proof.
  unfold is_byte. intros Ha.
  destruct (Z.eq_dec a 0) as [->|Hz]; [simpl; lia|].
  apply Z.log2_lt_pow2; lia.
Qed.

Lemma lxor_byte a b : is_byte a -> is_byte b -> is_byte (Z.lxor a b).
Proof.
  intros Ha Hb.
  assert (Hn : 0 <= Z.lxor a b) by (unfold is_byte in *; apply Z.lxor_nonneg; lia).
  split; [exact Hn|].
  destruct (Z.eq_dec (Z.lxor a b) 0) as [->|Hz]; [lia|].
  change 256 with (2 ^ 8). apply Z.log2_lt_pow2; [lia|].
  eapply Z.le_lt_trans; [apply Z.log2_lxor; unfold is_byte in *; lia|].
  apply Z.max_lub_lt; now apply log2_byte.
Qed.

Lemma lxor_lxor_cancel a b : Z.lxor (Z.lxor a b) b = a.
Proof. now rewrite Z.lxor_assoc, Z.lxor_nilpotent, Z.lxor_0_r. Qed.

(** Checking a decidable property of bytes on all 256 of them. *)
Lemma forall_bytes (P : Z -> bool) :
  forallb P (seqZ 0 256) = true -> forall x, is_byte x -> P x = true.
Proof.
  intros H x Hx. rewrite forallb_forall in H. apply H.
  apply list_elem_of_In, elem_of_seqZ. unfold is_byte in Hx. lia.
Qed.

Lemma forall_below (n : Z) (P : Z -> bool) :
  forallb P (seqZ 0 n) = true -> forall x, 0 <= x < n -> P x = true.
Proof.
  intros H x Hx. rewrite forallb_forall in H. apply H.
  apply list_elem_of_In, elem_of_seqZ. lia.
Qed.

(** ** The error monad and the [for] loop *)

Lemma for_in_app {St : Type} (xs ys : list Z) (body : Z -> St -> result St) st :
  for_in (xs ++ ys) body st = (st' <- for_in xs body st ;; for_in ys body st').
Proof.
  revert st. induction xs as [|x xs IH]; intros st; simpl; [reflexivity|].
  destruct (body x st); simpl; [apply IH|reflexivity].
Qed.

Lemma range_succ (n : nat) :
  range (Z.of_nat (S n)) = range (Z.of_nat n) ++ [Z.of_nat n].
Proof.
  unfold range. rewrite seqZ_S. reflexivity.
Qed.

(** ** Sequences *)

Lemma getitem_entry (T : list Z) (i : Z) :
  0 <= i < len T -> getitem T i = Ok (entry T i).
Proof.
  intros Hi. unfold getitem, entry, len in *.
  destruct (i <? 0) eqn:E1; [apply Z.ltb_lt in E1; lia|].
  rewrite E1. simpl.
  destruct (Z.of_nat (length T) <=? i) eqn:E2; [apply Z.leb_le in E2; lia|].
  destruct (T !! Z.to_nat i) eqn:E3; [reflexivity|].
  apply lookup_ge_None in E3. lia.
Qed.

Lemma setitem_insert (b : list Z) (i v : Z) :
  0 <= i < len b -> is_byte v -> setitem b i v = Ok (<[Z.to_nat i := v]> b).
Proof.
  intros Hi Hv. unfold setitem, len in *.
  apply is_byteb_spec in Hv. rewrite Hv. simpl.
  destruct (i <? 0) eqn:E1; [apply Z.ltb_lt in E1; lia|].
  rewrite E1. simpl.
  destruct (Z.of_nat (length b) <=? i) eqn:E2; [apply Z.leb_le in E2; lia|].
  reflexivity.
Qed.

Lemma len_insert (b : list Z) (i : nat) (v : Z) : len (<[i := v]> b) = len b.
Proof. unfold len. now rewrite length_insert. Qed.

(** ** Tables: 256 bytes *)

Lemma table_len T : table T -> len T = 256.
Proof. intros [H _]. unfold len. rewrite H. reflexivity. Qed.

Lemma entry_byte T i : Forall is_byte T -> is_byte (entry T i).
Proof.
  intros HT. unfold entry. destruct (T !! Z.to_nat i) eqn:E; simpl.
  - eapply Forall_lookup_1; eauto.
  - unfold is_byte. lia.
Qed.

Lemma length_swap T i j : length (swap T i j) = length T.
Proof. unfold swap. apply length_imap. Qed.

Lemma lookup_swap T i j (p : nat) :
  swap T i j !! p =
    (fun x => if decide (p = Z.to_nat i) then entry T j
              else if decide (p = Z.to_nat j) then entry T i else x)
    <$> T !! p.
Proof. unfold swap. apply list_lookup_imap. Qed.

(** The two stores of [s[i], s[j] = s[j], s[i]] make the swap. *)
Lemma insert_insert_swap T i j :
  0 <= i < len T -> 0 <= j < len T ->
  <[Z.to_nat j := entry T i]> (<[Z.to_nat i := entry T j]> T) = swap T i j.
Proof.
  intros Hi Hj. unfold len in *. apply list_eq. intros p.
  rewrite lookup_swap.
  destruct (decide (p = Z.to_nat j)) as [->|Hpj].
  - rewrite list_lookup_insert_eq by (rewrite length_insert; lia).
    destruct (lookup_lt_is_Some_2 T (Z.to_nat j)) as [x Hx]; [lia|].
    rewrite Hx. simpl. destruct (decide (Z.to_nat j = Z.to_nat i)) as [E|E].
    + f_equal. unfold entry. now rewrite E.
    + reflexivity.
  - rewrite list_lookup_insert_ne by congruence.
    destruct (decide (p = Z.to_nat i)) as [->|Hpi].
    + rewrite list_lookup_insert_eq by lia.
      destruct (lookup_lt_is_Some_2 T (Z.to_nat i)) as [x Hx]; [lia|].
      now rewrite Hx.
    + rewrite list_lookup_insert_ne by congruence.
      destruct (T !! p); reflexivity.
Qed.

Lemma swap_bytes T i j : Forall is_byte T -> Forall is_byte (swap T i j).
Proof.
  intros HT. apply Forall_lookup_2. intros p x. rewrite lookup_swap.
  destruct (T !! p) eqn:E; simpl; [|discriminate].
  intros [= <-]. repeat case_decide; try apply entry_byte; auto.
  eapply Forall_lookup_1; eauto.
Qed.

Lemma swap_table T i j : table T -> table (swap T i j).
Proof.
  intros [HL HB]. split; [now rewrite length_swap|now apply swap_bytes].
Qed.

Lemma lookup_entry (T : list Z) (i : Z) :
  0 <= i < len T -> T !! Z.to_nat i = Some (entry T i).
Proof.
  intros Hi. unfold entry, len in *.
  destruct (lookup_lt_is_Some_2 T (Z.to_nat i)) as [x Hx]; [lia|].
  now rewrite Hx.
Qed.

(** A swap permutes the table. *)
Lemma swap_Permutation T i j :
  0 <= i < len T -> 0 <= j < len T -> Permutation (swap T i j) T.
Proof.
  intros Hi Hj. apply Permutation_inj. split; [apply length_swap|].
  set (a := Z.to_nat i). set (b := Z.to_nat j).
  exists (fun p => if decide (p = a) then b else if decide (p = b) then a else p).
  split.
  - intros p q. repeat case_decide; congruence.
  - intros p. rewrite lookup_swap. fold a b.
    destruct (decide (p = a)) as [->|Hpa].
    + unfold a, b. rewrite !lookup_entry by assumption. reflexivity.
    + destruct (decide (p = b)) as [->|Hpb].
      * unfold a, b. rewrite !lookup_entry by assumption. reflexivity.
      * destruct (T !! p); reflexivity.
Qed.

(** ** The key schedule *)

Lemma ksa_body_step (K T : list Z) (i j : Z) :
  table T -> 0 <= i < 256 -> K <> [] ->
  ksa_body K i (T, j) =
    let j' := (j + entry T i + entry K (i mod len K)) mod 256 in
    Ok (swap T i j', j').
Proof.
  intros HT Hi HK. pose proof (table_len T HT) as HL.
  assert (0 < len K) by (unfold len; destruct K; [congruence|simpl; lia]).
  unfold ksa_body.
  rewrite !getitem_entry by lia. simpl.
  rewrite getitem_entry by (apply Z.mod_pos_bound; lia). simpl.
  rewrite land_255_mod.
  set (j' := (j + entry T i + entry K (i mod len K)) mod 256).
  assert (Hj' : 0 <= j' < 256) by apply mod_256_byte.
  rewrite !getitem_entry by lia. simpl.
  destruct HT as [HTl HTb].
  rewrite setitem_insert by (try apply entry_byte; auto; lia). simpl.
  rewrite setitem_insert by (try apply entry_byte; auto; rewrite ?len_insert; lia).
  simpl. rewrite insert_insert_swap by lia. reflexivity.
Qed.

Lemma range_table : table (seqZ 0 256).
Proof.
  split; [reflexivity|].
  apply Forall_forall. intros x Hx. apply elem_of_seqZ in Hx. unfold is_byte. lia.
Qed.

Lemma KSA_table K n : table (fst (KSA K n)).
Proof.
  induction n as [|n IH]; simpl; [apply range_table|].
  destruct (KSA K n) as [T j]. simpl in *. now apply swap_table.
Qed.

Lemma KSA_Permutation K n :
  (n <= 256)%nat -> Permutation (fst (KSA K n)) (seqZ 0 256).
Proof.
  induction n as [|n IH]; intros Hn; simpl; [reflexivity|].
  pose proof (KSA_table K n) as HT.
  destruct (KSA K n) as [T j]. simpl in *.
  rewrite swap_Permutation; [apply IH; lia| |];
    rewrite (table_len T HT); [lia|apply mod_256_byte].
Qed.

(** The first [n] iterations of the loop of lines 115-117 compute the
    [n]-round state of the specification's key schedule. *)
Lemma ksa_loop_KSA (K : list Z) (n : nat) :
  K <> [] -> (n <= 256)%nat ->
  for_in (range (Z.of_nat n)) (ksa_body K) (range 256, 0) = Ok (KSA K n).
Proof.
  intros HK. induction n as [|n IH]; intros Hn; [reflexivity|].
  rewrite range_succ, for_in_app, IH by lia. simpl.
  pose proof (KSA_table K n) as HT.
  destruct (KSA K n) as [T j]. simpl in HT.
  rewrite ksa_body_step by (auto; lia). reflexivity.
Qed.

Lemma key_bytes_nonempty : key_bytes <> [].
Proof. discriminate. Qed.

Lemma key_schedule_KSA : key_schedule = Ok (KSA key_bytes 256).
Proof. apply (ksa_loop_KSA key_bytes 256); [apply key_bytes_nonempty|lia]. Qed.

(** ** The decryption loop *)

Lemma PRGA_state_table T i k n :
  table T -> table (fst (fst (PRGA_state T i k n))).
Proof.
  revert T i k. induction n as [|n IH]; intros T i k HT; simpl; [exact HT|].
  apply IH. now apply swap_table.
Qed.

Lemma PRGA_state_Permutation T i k n :
  table T -> Permutation (fst (fst (PRGA_state T i k n))) T.
Proof.
  revert T i k. induction n as [|n IH]; intros T i k HT; simpl; [reflexivity|].
  rewrite IH by now apply swap_table.
  apply swap_Permutation; rewrite (table_len T HT); apply mod_256_byte.
Qed.

Lemma PRGA_state_succ T i k n :
  PRGA_state T i k (S n) =
    let '(T1, i1, k1) := PRGA_state T i k n in
    let i' := (i1 + 1) mod 256 in
    let k' := (k1 + entry T1 i') mod 256 in
    (swap T1 i' k', i', k').
Proof.
  revert T i k. induction n as [|n IH]; intros T i k; [reflexivity|].
  change (PRGA_state T i k (S (S n))) with
    (PRGA_state (swap T ((i + 1) mod 256) ((k + entry T ((i + 1) mod 256)) mod 256))
       ((i + 1) mod 256) ((k + entry T ((i + 1) mod 256)) mod 256) (S n)).
  rewrite IH. reflexivity.
Qed.

Lemma length_PRGA T i k B : length (PRGA T i k B) = length B.
Proof.
  revert T i k. induction B as [|b B IH]; intros T i k; simpl; [reflexivity|].
  now rewrite IH.
Qed.

Lemma PRGA_app T i k B1 B2 :
  PRGA T i k (B1 ++ B2) =
    PRGA T i k B1 ++
    (let '(T1, i1, k1) := PRGA_state T i k (length B1) in PRGA T1 i1 k1 B2).
Proof.
  revert T i k. induction B1 as [|b B1 IH]; intros T i k; simpl; [reflexivity|].
  now rewrite IH.
Qed.

Lemma PRGA_bytes T i k B :
  Forall is_byte T -> Forall is_byte B -> Forall is_byte (PRGA T i k B).
Proof.
  intros HT HB. revert T i k HT.
  induction HB as [|b B Hb HB IH]; intros T i k HT; simpl; constructor.
  - apply lxor_byte; [assumption|]. apply entry_byte. now apply swap_bytes.
  - apply IH. now apply swap_bytes.
Qed.

(** One iteration of the loop at an [int] item: the [elif] branch. *)
Lemma decrypt_body_int (items : list pyobj) (index b : Z) T i k d :
  table T -> 0 <= index < len d ->
  items !! Z.to_nat index = Some (PInt b) -> is_byte b ->
  decrypt_body items index (LoopState T i k (PByteArray d)) =
    let i' := (i + 1) mod 256 in
    let k' := (k + entry T i') mod 256 in
    let T' := swap T i' k' in
    let t := (entry T' i' + entry T' k') mod 256 in
    Ok (LoopState T' i' k'
          (PByteArray (<[Z.to_nat index := Z.lxor b (entry T' t)]> d))).
Proof.
  intros HT Hidx Hitem Hb. pose proof (table_len T HT) as HL.
  unfold decrypt_body. cbn [st_s st_i st_k st_decoded].
  rewrite !land_255_mod.
  set (i' := (i + 1) mod 256).
  assert (Hi' : 0 <= i' < 256) by apply mod_256_byte.
  rewrite getitem_entry by lia. cbn [bind].
  rewrite land_255_mod.
  set (k' := (k + entry T i') mod 256).
  assert (Hk' : 0 <= k' < 256) by apply mod_256_byte.
  rewrite !getitem_entry by lia. cbn [bind].
  pose proof HT as [HTl HTb].
  rewrite setitem_insert by (try apply entry_byte; auto; lia). cbn [bind].
  rewrite setitem_insert by (try apply entry_byte; auto; rewrite ?len_insert; lia).
  cbn [bind]. rewrite insert_insert_swap by lia.
  set (T' := swap T i' k').
  assert (HT' : table T') by now apply swap_table.
  pose proof (table_len T' HT') as HL'.
  rewrite !getitem_entry by lia. cbn [bind].
  rewrite land_255_mod.
  set (t := (entry T' i' + entry T' k') mod 256).
  assert (Ht : 0 <= t < 256) by apply mod_256_byte.
  assert (Hget : getitem items index = Ok (PInt b)).
  { unfold getitem. apply lookup_lt_Some in Hitem as Hlt. unfold len.
    destruct (index <? 0) eqn:E1; [apply Z.ltb_lt in E1; lia|].
    rewrite E1. simpl.
    destruct (Z.of_nat (length items) <=? index) eqn:E2;
      [apply Z.leb_le in E2; lia|].
    now rewrite Hitem. }
  rewrite Hget. cbn [bind].
  rewrite getitem_entry by lia. cbn [bind]. unfold store_decoded.
  rewrite setitem_insert; [reflexivity|lia|].
  apply lxor_byte; [assumption|]. apply entry_byte. apply HT'.
Qed.

(** The state of the loop after [n] iterations on a [bytes] object [B]:
    the specification's table and indices, and in [decoded] the first
    [n] output bytes followed by the zeros [bytearray(len(B))] put. *)
Lemma decrypt_prefix (T : list Z) (B : list Z) (n : nat) :
  table T -> Forall is_byte B -> (n <= length B)%nat ->
  for_in (range (Z.of_nat n)) (decrypt_body (bytes_items B))
    (LoopState T 0 0 (PByteArray (bytearray_zeros (len B)))) =
  let '(Tn, i, k) := PRGA_state T 0 0 n in
  Ok (LoopState Tn i k
        (PByteArray (PRGA T 0 0 (take n B) ++ replicate (length B - n) 0))).
Proof.
  intros HT HB. induction n as [|n IH]; intros Hn.
  - simpl. unfold bytearray_zeros, len. rewrite Nat2Z.id, Nat.sub_0_r.
    reflexivity.
  - rewrite range_succ, for_in_app, IH by lia. clear IH.
    rewrite PRGA_state_succ.
    pose proof (PRGA_state_table T 0 0 n HT) as HTn.
    destruct (PRGA_state T 0 0 n) as [[Tn i] k] eqn:E. simpl in HTn.
    cbn [bind for_in].
    destruct (lookup_lt_is_Some_2 B n) as [b Hb]; [lia|].
    assert (Hbyte : is_byte b) by (eapply Forall_lookup_1; eauto).
    rewrite (decrypt_body_int _ _ b); auto.
    + cbn zeta. cbn [bind]. do 3 f_equal.
      rewrite Nat2Z.id.
      rewrite (take_S_r B n b Hb), PRGA_app.
      rewrite length_take_le, E by lia.
      replace (length B - n)%nat with (S (length B - S n)) by lia.
      rewrite insert_app_r_alt by (rewrite length_PRGA, length_take_le; lia).
      rewrite length_PRGA, length_take_le, Nat.sub_diag by lia.
      simpl. rewrite <- app_assoc. reflexivity.
    + unfold len. rewrite length_app, length_PRGA, length_take_le, length_replicate; lia.
    + rewrite Nat2Z.id. unfold bytes_items. rewrite list_lookup_fmap, Hb. reflexivity.
Qed.

Lemma len_bytes_items B : len (bytes_items B) = len B.
Proof. unfold len, bytes_items. now rewrite length_map. Qed.

(** The whole loop on a [bytes] object. *)
Lemma decrypt_bytes (T : list Z) (B : list Z) :
  table T -> Forall is_byte B ->
  decrypt T (bytes_items B) =
    let '(Tn, i, k) := PRGA_state T 0 0 (length B) in
    Ok (LoopState Tn i k (PByteArray (PRGA T 0 0 B))).
Proof.
  intros HT HB. unfold decrypt. rewrite len_bytes_items. unfold len at 1.
  rewrite (decrypt_prefix T B (length B)) by auto.
  rewrite take_ge, Nat.sub_diag by lia. simpl. now rewrite app_nil_r.
Qed.

(** ** base64 decoding yields bytes *)

Lemma a2b_base64_loop_bytes data q l p acc B :
  Forall is_byte acc -> a2b_base64_loop data q l p acc = Ok B -> Forall is_byte B.
Proof.
  revert q l p acc. induction data as [|c data IH]; intros q l p acc Hacc H.
  - simpl in H. destruct (q =? 0); [now injection H as <-|discriminate].
  - simpl in H.
    repeat (case_match; try (injection H as <-; assumption));
      (eapply IH; [|exact H]); try assumption;
      apply Forall_app; (split; [assumption|]);
      repeat constructor; apply land_255_byte.
Qed.

Lemma b64decode_bytes s B : b64decode s = Ok B -> Forall is_byte B.
Proof.
  unfold b64decode, bytes_from_decode_data, a2b_base64.
  destruct (forallb is_ascii s); simpl; [|discriminate].
  apply a2b_base64_loop_bytes. constructor.
Qed.

(** ** The function as a composition

    On every token the two loops run without raising, so [__deobf] is
    base64 decoding, the cipher of the specification, strict UTF-8
    decoding and [unquote]. *)
Lemma deobf_unfold (encoded_url : list Z) :
  __deobf encoded_url =
    (binary_data <- b64decode (standardize encoded_url) ;;
     text <- decode_utf8 (rc4 key_bytes binary_data) ;;
     Ok (PStr (unquote text))).
Proof.
  unfold __deobf. destruct (b64decode (standardize encoded_url)) as [B|e] eqn:E;
    [|reflexivity].
  cbn [bind]. rewrite key_schedule_KSA. cbn [bind].
  pose proof (KSA_table key_bytes 256) as HT.
  rewrite decrypt_bytes by (auto; eapply b64decode_bytes; eauto).
  unfold rc4.
  destruct (PRGA_state (fst (KSA key_bytes 256)) 0 0 (length B)) as [[Tn i] k].
  reflexivity.
Qed.

(** ** base64: decoding what the reference encoder wrote *)

Lemma forall_bytes2 (P : Z -> Z -> bool) :
  forallb (fun x => forallb (P x) (seqZ 0 256)) (seqZ 0 256) = true ->
  forall x y, is_byte x -> is_byte y -> P x y = true.
Proof.
  intros H x y Hx Hy.
  apply (forall_bytes (P x)); [|assumption].
  apply (forall_bytes (fun x => forallb (P x) (seqZ 0 256))); assumption.
Qed.

Lemma sextet0_range x : is_byte x -> is_sextet (sextet0 x) = true.
Proof. apply (forall_bytes (fun x => is_sextet (sextet0 x))). vm_compute. reflexivity. Qed.

Lemma sextet1_range x y : is_byte x -> is_byte y -> is_sextet (sextet1 x y) = true.
Proof. apply (forall_bytes2 (fun x y => is_sextet (sextet1 x y))). vm_compute. reflexivity. Qed.

Lemma sextet2_range y z : is_byte y -> is_byte z -> is_sextet (sextet2 y z) = true.
Proof. apply (forall_bytes2 (fun y z => is_sextet (sextet2 y z))). vm_compute. reflexivity. Qed.

Lemma sextet3_range z : is_byte z -> is_sextet (sextet3 z) = true.
Proof. apply (forall_bytes (fun z => is_sextet (sextet3 z))). vm_compute. reflexivity. Qed.

(** The byte the decoder writes at each of its three positions. *)
Lemma join_byte1 x y :
  is_byte x -> is_byte y ->
  Z.land (Z.lor (Z.shiftl (sextet0 x) 2) (Z.shiftr (sextet1 x y) 4)) 255 = x.
Proof.
  intros Hx Hy. apply Z.eqb_eq. revert x y Hx Hy.
  apply (forall_bytes2 (fun x y =>
    Z.land (Z.lor (Z.shiftl (sextet0 x) 2) (Z.shiftr (sextet1 x y) 4)) 255 =? x)).
  vm_compute. reflexivity.
Qed.

Lemma left_bits1 x y :
  is_byte x -> is_byte y -> Z.land (sextet1 x y) 15 = Z.land y 240 / 16.
Proof.
  intros Hx Hy. apply Z.eqb_eq. revert x y Hx Hy.
  apply (forall_bytes2 (fun x y => Z.land (sextet1 x y) 15 =? Z.land y 240 / 16)).
  vm_compute. reflexivity.
Qed.

Lemma join_byte2 y z :
  is_byte y -> is_byte z ->
  Z.land (Z.lor (Z.shiftl (Z.land y 240 / 16) 4) (Z.shiftr (sextet2 y z) 2)) 255 = y.
Proof.
  intros Hy Hz. apply Z.eqb_eq. revert y z Hy Hz.
  apply (forall_bytes2 (fun y z =>
    Z.land (Z.lor (Z.shiftl (Z.land y 240 / 16) 4) (Z.shiftr (sextet2 y z) 2)) 255 =? y)).
  vm_compute. reflexivity.
Qed.

Lemma left_bits2 y z :
  is_byte y -> is_byte z -> Z.land (sextet2 y z) 3 = Z.land z 192 / 64.
Proof.
  intros Hy Hz. apply Z.eqb_eq. revert y z Hy Hz.
  apply (forall_bytes2 (fun y z => Z.land (sextet2 y z) 3 =? Z.land z 192 / 64)).
  vm_compute. reflexivity.
Qed.

Lemma join_byte3 z :
  is_byte z ->
  Z.land (Z.lor (Z.shiftl (Z.land z 192 / 64) 6) (sextet3 z)) 255 = z.
Proof.
  intros Hz. apply Z.eqb_eq. revert z Hz.
  apply (forall_bytes (fun z =>
    Z.land (Z.lor (Z.shiftl (Z.land z 192 / 64) 6) (sextet3 z)) 255 =? z)).
  vm_compute. reflexivity.
Qed.

Lemma b2a_digit_ok v : is_sextet v = true -> digit_ok v = true.
Proof.
  intros Hv. apply (forall_below 64 digit_ok); [vm_compute; reflexivity|].
  unfold is_sextet in Hv. apply andb_true_iff in Hv. lia.
Qed.

Lemma a2b_base64_loop_digit v rest q l p acc :
  is_sextet v = true ->
  a2b_base64_loop (b2a_digit v :: rest) q l p acc =
    if q =? 0 then a2b_base64_loop rest 1 v 0 acc
    else if q =? 1 then
      a2b_base64_loop rest 2 (Z.land v 15) 0
        (acc ++ [Z.land (Z.lor (Z.shiftl l 2) (Z.shiftr v 4)) 255])
    else if q =? 2 then
      a2b_base64_loop rest 3 (Z.land v 3) 0
        (acc ++ [Z.land (Z.lor (Z.shiftl l 4) (Z.shiftr v 2)) 255])
    else
      a2b_base64_loop rest 0 0 0
        (acc ++ [Z.land (Z.lor (Z.shiftl l 6) v) 255]).
Proof.
  intros Hv. pose proof (b2a_digit_ok v Hv) as Hok.
  unfold digit_ok in Hok. cbv zeta in Hok.
  repeat (apply andb_true_iff in Hok as [Hok ?]).
  cbn [a2b_base64_loop].
  destruct (b2a_digit v =? BASE64_PAD); [discriminate|].
  cbv zeta.
  replace (table_a2b_base64 (b2a_digit v)) with v by (symmetry; now apply Z.eqb_eq).
  unfold is_sextet in Hv. apply andb_true_iff in Hv as [_ Hv].
  destruct (64 <=? v) eqn:E; [apply Z.leb_le in E; apply Z.ltb_lt in Hv; lia|].
  reflexivity.
Qed.

Lemma list_ind3 {A : Type} (P : list A -> Prop) :
  P [] -> (forall x, P [x]) -> (forall x y, P [x; y]) ->
  (forall x y z l, P l -> P (x :: y :: z :: l)) ->
  forall l, P l.
Proof.
  intros H0 H1 H2 H3. fix IH 1.
  intros [|x [|y [|z l]]]; [apply H0|apply H1|apply H2|apply H3, IH].
Qed.

Lemma byte_0 : is_byte 0.
Proof. unfold is_byte. lia. Qed.

Lemma a2b_base64_loop_b64encode (b : list Z) :
  Forall is_byte b ->
  forall acc, a2b_base64_loop (b64encode b) 0 0 0 acc = Ok (acc ++ b).
Proof.
  induction b as [|x|x y|x y z b IH] using list_ind3; intros Hb acc.
  - simpl. now rewrite app_nil_r.
  - apply Forall_cons in Hb as [Hx _]. pose proof byte_0 as H0.
    cbn [b64encode].
    rewrite a2b_base64_loop_digit by now apply sextet0_range.
    cbn [Z.eqb].
    rewrite a2b_base64_loop_digit by now apply sextet1_range.
    cbn [Z.eqb Pos.eqb]. rewrite join_byte1 by assumption.
    reflexivity.
  - apply Forall_cons in Hb as [Hx Hb]. apply Forall_cons in Hb as [Hy _].
    pose proof byte_0 as H0.
    cbn [b64encode].
    rewrite a2b_base64_loop_digit by now apply sextet0_range.
    cbn [Z.eqb].
    rewrite a2b_base64_loop_digit by now apply sextet1_range.
    cbn [Z.eqb Pos.eqb]. rewrite join_byte1, left_bits1 by assumption.
    rewrite a2b_base64_loop_digit by now apply sextet2_range.
    cbn [Z.eqb Pos.eqb]. rewrite join_byte2 by assumption.
    rewrite <- app_assoc. reflexivity.
  - apply Forall_cons in Hb as [Hx Hb]. apply Forall_cons in Hb as [Hy Hb].
    apply Forall_cons in Hb as [Hz Hb].
    cbn [b64encode].
    rewrite a2b_base64_loop_digit by now apply sextet0_range.
    cbn [Z.eqb].
    rewrite a2b_base64_loop_digit by now apply sextet1_range.
    cbn [Z.eqb Pos.eqb]. rewrite join_byte1, left_bits1 by assumption.
    rewrite a2b_base64_loop_digit by now apply sextet2_range.
    cbn [Z.eqb Pos.eqb]. rewrite join_byte2, left_bits2 by assumption.
    rewrite a2b_base64_loop_digit by now apply sextet3_range.
    cbn [Z.eqb Pos.eqb]. rewrite join_byte3 by assumption.
    rewrite IH by assumption. rewrite <- !app_assoc. reflexivity.
Qed.

Lemma b2a_digit_plain v : is_sextet v = true -> plain_b64_char (b2a_digit v).
Proof.
  intros Hv. pose proof (b2a_digit_ok v Hv) as Hok.
  unfold digit_ok in Hok. cbv zeta in Hok.
  repeat (apply andb_true_iff in Hok as [Hok ?]).
  repeat match goal with
         | H : negb (_ =? _) = true |- _ =>
             apply negb_true_iff, Z.eqb_neq in H
         end.
  split; [unfold is_ascii; apply andb_true_iff|]; split; assumption.
Qed.

Lemma pad_plain : plain_b64_char BASE64_PAD.
Proof. repeat split; unfold BASE64_PAD; lia. Qed.

Lemma Forall_cons4 {A : Type} (P : A -> Prop) a b c d l :
  P a -> P b -> P c -> P d -> Forall P l -> Forall P (a :: b :: c :: d :: l).
Proof. intros. repeat (apply List.Forall_cons; [assumption|]). assumption. Qed.

Lemma b64encode_plain (b : list Z) :
  Forall is_byte b -> Forall plain_b64_char (b64encode b).
Proof.
  pose proof byte_0 as H0. pose proof pad_plain as Hp.
  induction b as [|x|x y|x y z b IH] using list_ind3; intros Hb.
  - constructor.
  - apply Forall_cons in Hb as [Hx _].
    cbn [b64encode].
    apply Forall_cons4; try exact Hp; try apply Forall_nil_2;
      apply b2a_digit_plain; auto using sextet0_range, sextet1_range.
  - apply Forall_cons in Hb as [Hx Hb]. apply Forall_cons in Hb as [Hy _].
    cbn [b64encode].
    apply Forall_cons4; try exact Hp; try apply Forall_nil_2;
      apply b2a_digit_plain;
      auto using sextet0_range, sextet1_range, sextet2_range.
  - apply Forall_cons in Hb as [Hx Hb]. apply Forall_cons in Hb as [Hy Hb].
    apply Forall_cons in Hb as [Hz Hb].
    cbn [b64encode].
    apply Forall_cons4; [| | | |now apply IH];
      apply b2a_digit_plain;
      auto using sextet0_range, sextet1_range, sextet2_range, sextet3_range.
Qed.

Lemma b64decode_b64encode (b : list Z) :
  Forall is_byte b -> b64decode (b64encode b) = Ok b.
Proof.
  intros Hb. unfold b64decode, bytes_from_decode_data.
  assert (H : forallb is_ascii (b64encode b) = true).
  { apply forallb_forall. intros c Hc.
    pose proof (b64encode_plain b Hb) as Hp.
    rewrite Forall_forall in Hp. apply list_elem_of_In in Hc. now apply Hp. }
  rewrite H. cbn [bind]. unfold a2b_base64.
  now rewrite a2b_base64_loop_b64encode.
Qed.

(** ** The two alphabets *)

Lemma standardize_substitute (s : list Z) :
  Forall plain_b64_char s -> standardize (substitute s) = s.
Proof.
  unfold standardize, substitute.
  induction 1 as [|c s [_ [H1 H2]] _ IH]; [reflexivity|].
  cbn [replace]. rewrite IH. f_equal.
  destruct (Z.eqb_spec c 43) as [->|N1]; [reflexivity|].
  destruct (Z.eqb_spec c 47) as [->|N2]; [reflexivity|].
  destruct (Z.eqb_spec c 95) as [->|N3]; [congruence|].
  destruct (Z.eqb_spec c 45) as [->|N4]; [congruence|reflexivity].
Qed.

(** ** The cipher is its own inverse *)

Lemma PRGA_involutive T i k B : PRGA T i k (PRGA T i k B) = B.
Proof.
  revert T i k. induction B as [|b B IH]; intros T i k; simpl; [reflexivity|].
  now rewrite lxor_lxor_cancel, IH.
Qed.

(** ** UTF-8 *)

Lemma utf8_scan_ascii s : ascii_bytes s -> utf8_scan s = map Scalar s.
Proof.
  induction 1 as [|c s Hc _ IH]; [reflexivity|].
  cbn [utf8_scan map]. unfold is_ascii in Hc. apply andb_true_iff in Hc as [_ Hc].
  now rewrite Hc, IH.
Qed.

Lemma decode_utf8_ascii s : ascii_bytes s -> decode_utf8 s = Ok s.
Proof.
  intros H. unfold decode_utf8. rewrite utf8_scan_ascii by assumption.
  clear H. induction s as [|c s IH]; [reflexivity|]. simpl. now rewrite IH.
Qed.

Lemma decode_utf8_replace_ascii s : ascii_bytes s -> decode_utf8_replace s = s.
Proof.
  intros H. unfold decode_utf8_replace. rewrite utf8_scan_ascii by assumption.
  clear H. induction s as [|c s IH]; [reflexivity|]. simpl. now rewrite IH.
Qed.

(** Where strict decoding succeeds, decoding with replacement agrees. *)
Lemma strict_errors_replace items u :
  strict_errors items = Ok u -> replace_errors items = u.
Proof.
  revert u. induction items as [|[c|] items IH]; intros u H; simpl in H.
  - now injection H as <-.
  - destruct (strict_errors items) as [v|]; [|discriminate].
    injection H as <-. simpl. f_equal. now apply IH.
  - discriminate.
Qed.

Lemma decode_utf8_replace_strict b u :
  decode_utf8 b = Ok u -> decode_utf8_replace b = u.
Proof. apply strict_errors_replace. Qed.

(** ** Percent-encoding *)

Lemma split_nonempty sep s : split sep s <> [].
Proof.
  destruct s as [|c s]; simpl; [discriminate|].
  destruct (c =? sep); [discriminate|]. destruct (split sep s); discriminate.
Qed.

Lemma split_no_sep sep s : existsb (Z.eqb sep) s = false -> split sep s = [s].
Proof.
  induction s as [|c s IH]; intros H; [reflexivity|].
  simpl in H. apply orb_false_iff in H as [Hc Hs].
  simpl. rewrite Z.eqb_sym, Hc, IH by assumption. reflexivity.
Qed.

Lemma split_single sep s bit : split sep s = [bit] -> bit = s.
Proof.
  revert bit. induction s as [|c s IH]; intros bit H; simpl in H.
  - now injection H as <-.
  - destruct (c =? sep).
    + injection H as <- H. now apply split_nonempty in H.
    + destruct (split sep s) as [|b0 bits] eqn:E; [now apply split_nonempty in E|].
      injection H as <- ->. f_equal. now apply IH.
Qed.

Lemma unquote_to_bytes_join s :
  unquote_to_bytes s = join_unquoted (split PERCENT s).
Proof.
  unfold unquote_to_bytes.
  destruct (split PERCENT s) as [|bit0 [|bit1 bits]] eqn:E.
  - now apply split_nonempty in E.
  - apply split_single in E. subst. simpl. now rewrite app_nil_r.
  - reflexivity.
Qed.

Lemma join_unquoted_cons c s :
  c <> PERCENT ->
  join_unquoted (split PERCENT (c :: s)) = c :: join_unquoted (split PERCENT s).
Proof.
  intros Hc. cbn [split]. apply Z.eqb_neq in Hc. rewrite Hc.
  destruct (split PERCENT s) as [|b0 bits] eqn:E; [now apply split_nonempty in E|].
  reflexivity.
Qed.

Lemma join_unquoted_escape h1 h2 byte s :
  h1 <> PERCENT -> h2 <> PERCENT -> hextobyte [h1; h2] = Some byte ->
  join_unquoted (split PERCENT (PERCENT :: h1 :: h2 :: s)) =
    byte :: join_unquoted (split PERCENT s).
Proof.
  intros H1 H2 Hb. cbn [split]. rewrite Z.eqb_refl.
  apply Z.eqb_neq in H1, H2. rewrite H1, H2.
  destruct (split PERCENT s) as [|b0 bits] eqn:E; [now apply split_nonempty in E|].
  cbn [join_unquoted map concat app]. unfold unquote_item at 1.
  change (take 2 (h1 :: h2 :: b0)) with [h1; h2].
  change (drop 2 (h1 :: h2 :: b0)) with b0.
  rewrite Hb. reflexivity.
Qed.

Lemma quote_escape_ok c : is_byte c -> escape_ok c = true.
Proof. apply (forall_bytes escape_ok). vm_compute. reflexivity. Qed.

Lemma quote_safe_ok c : is_byte c -> safe_ok c = true.
Proof. apply (forall_bytes safe_ok). vm_compute. reflexivity. Qed.

Lemma unquote_to_bytes_quote b :
  Forall is_byte b -> unquote_to_bytes (quote_from_bytes b) = b.
Proof.
  intros Hb. rewrite unquote_to_bytes_join.
  induction Hb as [|c b Hc _ IH]; [reflexivity|].
  unfold quote_from_bytes. cbn [map concat]. fold (quote_from_bytes b).
  unfold quote_byte.
  destruct (quote_safe c) eqn:Es.
  - pose proof (quote_safe_ok c Hc) as Hok. unfold safe_ok in Hok.
    rewrite Es in Hok. cbn [negb orb] in Hok.
    apply andb_true_iff in Hok as [Hne _].
    apply negb_true_iff, Z.eqb_neq in Hne.
    cbn [app]. rewrite join_unquoted_cons by assumption. now rewrite IH.
  - pose proof (quote_escape_ok c Hc) as Hok. unfold escape_ok in Hok.
    cbv zeta in Hok.
    destruct (hextobyte [hex_upper (c / 16); hex_upper (c mod 16)]) as [byte|] eqn:Eh;
      [|now rewrite andb_false_r in Hok].
    repeat (apply andb_true_iff in Hok as [Hok ?]).
    repeat match goal with
           | H : negb (_ =? _) = true |- _ => apply negb_true_iff, Z.eqb_neq in H
           | H : (_ =? _) = true |- _ => apply Z.eqb_eq in H
           end.
    subst byte. cbn [app].
    rewrite (join_unquoted_escape _ _ c) by assumption. now rewrite IH.
Qed.

Lemma quote_from_bytes_ascii b :
  Forall is_byte b -> ascii_bytes (quote_from_bytes b).
Proof.
  induction 1 as [|c b Hc _ IH]; [constructor|].
  unfold quote_from_bytes. cbn [map concat]. fold (quote_from_bytes b).
  apply Forall_app. split; [|exact IH].
  unfold quote_byte. destruct (quote_safe c) eqn:Es.
  - pose proof (quote_safe_ok c Hc) as Hok. unfold safe_ok in Hok.
    rewrite Es in Hok. cbn [negb orb] in Hok.
    apply andb_true_iff in Hok as [_ Ha]. repeat constructor. exact Ha.
  - pose proof (quote_escape_ok c Hc) as Hok. unfold escape_ok in Hok.
    cbv zeta in Hok.
    apply andb_true_iff in Hok as [Hok _].
    apply andb_true_iff in Hok as [Hok Ha2].
    apply andb_true_iff in Hok as [_ Ha1].
    repeat constructor; assumption.
Qed.

Lemma ascii_bytes_are_bytes s : ascii_bytes s -> Forall is_byte s.
Proof.
  intros Hs. eapply Forall_impl; [exact Hs|].
  intros c Hc. unfold is_ascii in Hc.
  apply andb_true_iff in Hc as [H1 H2]. unfold is_byte. lia.
Qed.

Lemma unquote_runs_ascii s run :
  ascii_bytes s ->
  unquote_runs run s = decode_utf8_replace (unquote_to_bytes (run ++ s)).
Proof.
  intros Hs. revert run.
  induction Hs as [|c s Hc _ IH]; intros run; simpl.
  - now rewrite app_nil_r.
  - rewrite Hc, IH, <- app_assoc. reflexivity.
Qed.

(** On an ASCII string [unquote] expands the escapes and decodes the
    bytes as UTF-8, replacing what is malformed. *)
Lemma unquote_ascii s :
  ascii_bytes s -> unquote s = decode_utf8_replace (unquote_to_bytes s).
Proof.
  intros Hs. unfold unquote.
  destruct (existsb (Z.eqb PERCENT) s) eqn:E; cbn [negb].
  - now rewrite unquote_runs_ascii.
  - unfold unquote_to_bytes. rewrite split_no_sep by assumption.
    now rewrite decode_utf8_replace_ascii.
Qed.

Lemma unquote_quote b :
  Forall is_byte b -> unquote (quote_from_bytes b) = decode_utf8_replace b.
Proof.
  intros Hb. rewrite unquote_ascii by now apply quote_from_bytes_ascii.
  now rewrite unquote_to_bytes_quote.
Qed.

(** ** The round trip *)

Lemma rc4_bytes K b : Forall is_byte b -> Forall is_byte (rc4 K b).
Proof. intros Hb. apply PRGA_bytes; [apply KSA_table|assumption]. Qed.

Lemma deobf_encode (plain : list Z) :
  Forall is_byte plain ->
  __deobf (encode plain) = Ok (PStr (decode_utf8_replace plain)).
Proof.
  intros Hp. pose proof (quote_from_bytes_ascii plain Hp) as Hq.
  pose proof (ascii_bytes_are_bytes _ Hq) as Hqb.
  rewrite deobf_unfold. unfold encode.
  rewrite standardize_substitute by (apply b64encode_plain, rc4_bytes, Hqb).
  rewrite b64decode_b64encode by (apply rc4_bytes, Hqb).
  cbn [bind]. unfold rc4 at 1. unfold rc4. rewrite PRGA_involutive.
  rewrite decode_utf8_ascii by assumption. cbn [bind].
  now rewrite unquote_quote.
Qed.

(** ** What the decoder accepts *)

Lemma standardize_map s : standardize s = map standard_char s.
Proof.
  unfold standardize. induction s as [|c s IH]; [reflexivity|].
  cbn [replace map]. rewrite IH. f_equal. unfold standard_char.
  destruct (Z.eqb_spec c 95) as [->|N]; reflexivity.
Qed.

Lemma standard_char_ascii c : is_ascii (standard_char c) = is_ascii c.
Proof.
  unfold standard_char.
  destruct (Z.eqb_spec c 95) as [->|N1]; [reflexivity|].
  destruct (Z.eqb_spec c 45) as [->|N2]; reflexivity.
Qed.

Lemma standardize_ascii s :
  forallb is_ascii (standardize s) = forallb is_ascii s.
Proof.
  rewrite standardize_map. induction s as [|c s IH]; [reflexivity|].
  cbn [map forallb]. now rewrite standard_char_ascii, IH.
Qed.




Lemma standardize_idempotent s : standardize (standardize s) = standardize s.
Proof.
  rewrite !standardize_map, map_map. apply map_ext. intros c.
  unfold standard_char.
  destruct (Z.eqb_spec c 95) as [->|N1]; [reflexivity|].
  destruct (Z.eqb_spec c 45) as [->|N2]; [reflexivity|].
  apply Z.eqb_neq in N1, N2. now rewrite N1, N2.
Qed.

Lemma strict_errors_raise items e :
  strict_errors items = Raise e -> e = UnicodeDecodeError.
Proof.
  induction items as [|[c|] items IH]; simpl; intros H.
  - discriminate.
  - destruct (strict_errors items); [discriminate|].
    injection H as <-. now apply IH.
  - now injection H as <-.
Qed.



Lemma filter_ascii (P : Z -> bool) s :
  forallb is_ascii s = true ->
  forallb is_ascii (filter (fun c => P c = true) s) = true.
Proof.
  intros Hs. apply forallb_forall. intros c Hc. rewrite forallb_forall in Hs.
  apply Hs. apply list_elem_of_In in Hc. apply list_elem_of_In.
  apply list_elem_of_filter in Hc. apply Hc.
Qed.





Lemma deobf_returns_str encoded_url v :
  __deobf encoded_url = Ok v -> exists text, v = PStr text.
Proof.
  unfold __deobf. intros H.
  destruct (b64decode _); [|discriminate]. cbn [bind] in H.
  destruct key_schedule; [|discriminate]. cbn [bind] in H.
  destruct (decrypt _ _); [|discriminate]. cbn [bind] in H.
  destruct (decode_method _); [|discriminate]. cbn [bind] in H.
  injection H as <-. eauto.
Qed.

Lemma forallb_bytes l : forallb is_byteb l = true -> Forall is_byte l.
Proof.
  intros H. apply Forall_forall. intros x Hx. apply is_byteb_spec.
  rewrite forallb_forall in H. apply H. now apply list_elem_of_In.
Qed.

(** ** The decoder against the definition of UTF-8 *)

Ltac euclid := Z.div_mod_to_equations; lia.

(** Settles the comparisons of the goal by arithmetic. *)
Ltac settle_tests :=
  repeat first
    [ match goal with
      | |- context [?a <? ?b] =>
          first [ rewrite (proj2 (Z.ltb_lt a b)) by euclid
                | rewrite (proj2 (Z.ltb_ge a b)) by euclid ]
      end
    | match goal with
      | |- context [?a <=? ?b] =>
          first [ rewrite (proj2 (Z.leb_le a b)) by euclid
                | rewrite (proj2 (Z.leb_gt a b)) by euclid ]
      end
    | match goal with
      | |- context [?a =? ?b] =>
          first [ rewrite (proj2 (Z.eqb_eq a b)) by euclid
                | rewrite (proj2 (Z.eqb_neq a b)) by euclid ]
      end ];
  cbn [negb andb orb].

(** The same, by cases on a comparison that arithmetic does not settle. *)
Ltac split_tests :=
  settle_tests;
  repeat (match goal with
          | |- context [?a <? ?b] => destruct (Z.ltb_spec a b)
          end; settle_tests).

Lemma utf8_scan_encode_char c rest :
  scalar_value c ->
  utf8_scan (utf8_encode_char c ++ rest) = Scalar c :: utf8_scan rest.
Proof.
  intros Hc. unfold scalar_value in Hc. unfold utf8_encode_char.
  destruct (Z.ltb_spec c 128) as [H1|H1].
  { cbn [app utf8_scan]. settle_tests. reflexivity. }
  destruct (Z.ltb_spec c 2048) as [H2|H2].
  { cbn [app utf8_scan]. unfold IS_CONTINUATION_BYTE. settle_tests.
    do 2 f_equal. rewrite Z.shiftl_mul_pow2 by lia.
    change (Z.shiftl 192 6) with 12288. change (2 ^ 6) with 64. euclid. }
  destruct (Z.ltb_spec c 65536) as [H3|H3].
  { cbn [app utf8_scan]. unfold IS_CONTINUATION_BYTE. split_tests;
      do 2 f_equal; rewrite !Z.shiftl_mul_pow2 by lia;
      change (Z.shiftl 224 12) with 917504; change (Z.shiftl 128 6) with 8192;
      change (2 ^ 12) with 4096; change (2 ^ 6) with 64; euclid. }
  cbn [app utf8_scan]. unfold IS_CONTINUATION_BYTE. split_tests;
    do 2 f_equal; rewrite !Z.shiftl_mul_pow2 by lia;
    change (Z.shiftl 240 18) with 62914560; change (Z.shiftl 128 12) with 524288;
    change (Z.shiftl 128 6) with 8192;
    change (2 ^ 18) with 262144; change (2 ^ 12) with 4096; change (2 ^ 6) with 64;
    euclid.
Qed.

Lemma decode_utf8_encode text :
  Forall scalar_value text -> decode_utf8 (utf8_encode text) = Ok text.
Proof.
  unfold decode_utf8, utf8_encode.
  induction 1 as [|c text Hc _ IH]; [reflexivity|].
  cbn [map concat]. rewrite utf8_scan_encode_char by assumption.
  cbn [strict_errors]. now rewrite IH.
Qed.

Lemma continuation_byte_range c :
  IS_CONTINUATION_BYTE c = true -> 128 <= c < 192.
Proof. unfold IS_CONTINUATION_BYTE. rewrite andb_true_iff. lia. Qed.

Ltac shifts_to_products :=
  rewrite ?Z.shiftl_mul_pow2 by lia;
  change (Z.shiftl 192 6) with 12288; change (Z.shiftl 224 12) with 917504;
  change (Z.shiftl 240 18) with 62914560; change (Z.shiftl 128 12) with 524288;
  change (Z.shiftl 128 6) with 8192;
  change (2 ^ 18) with 262144; change (2 ^ 12) with 4096; change (2 ^ 6) with 64.

(** The head of the scan of a byte sequence: a malformed span, or a
    scalar value whose encoding is the bytes the scan consumed. *)
Lemma utf8_scan_head ch s1 :
  Forall is_byte (ch :: s1) ->
  (exists items, utf8_scan (ch :: s1) = Malformed :: items)
  \/ (exists c s',
        utf8_scan (ch :: s1) = Scalar c :: utf8_scan s'
        /\ scalar_value c
        /\ ch :: s1 = utf8_encode_char c ++ s'
        /\ Forall is_byte s'
        /\ (length s' <= length s1)%nat).
Proof.
  intros Hb. apply Forall_cons in Hb as [Hch Hs1]. unfold is_byte in Hch.
  cbn [utf8_scan].
  destruct (Z.ltb_spec ch 128) as [H1|H1].
  { right. exists ch, s1. split; [reflexivity|].
    split; [unfold scalar_value; lia|]. split; [|split; [assumption|lia]].
    unfold utf8_encode_char. now rewrite (proj2 (Z.ltb_lt ch 128)) by lia. }
  destruct (Z.ltb_spec ch 194) as [H2|H2]; [left; eexists; reflexivity|].
  destruct (Z.ltb_spec ch 224) as [H3|H3].
  { destruct s1 as [|ch2 s2]; [left; eexists; reflexivity|].
    apply Forall_cons in Hs1 as [Hch2 Hs2].
    destruct (IS_CONTINUATION_BYTE ch2) eqn:E2; cbn [negb];
      [|left; eexists; reflexivity].
    apply continuation_byte_range in E2.
    right. eexists _, s2. split; [reflexivity|]. shifts_to_products.
    split; [unfold scalar_value; lia|].
    split; [|split; [assumption|cbn [length]; lia]].
    unfold utf8_encode_char. settle_tests. cbn [app]. repeat f_equal; euclid. }
  destruct (Z.ltb_spec ch 240) as [H4|H4].
  { destruct s1 as [|ch2 s2]; [left; eexists; reflexivity|].
    apply Forall_cons in Hs1 as [Hch2 Hs2].
    destruct (IS_CONTINUATION_BYTE ch2) eqn:E2; cbn [negb orb];
      [|left; eexists; reflexivity].
    apply continuation_byte_range in E2.
    destruct (if ch2 <? 160 then ch =? 224 else ch =? 237) eqn:Er;
      [left; eexists; reflexivity|].
    assert (Hr : (ch = 224 -> 160 <= ch2) /\ (ch = 237 -> ch2 < 160)).
    { destruct (Z.ltb_spec ch2 160);
        [apply Z.eqb_neq in Er|apply Z.eqb_neq in Er]; lia. }
    clear Er.
    destruct s2 as [|ch3 s3]; [left; eexists; reflexivity|].
    apply Forall_cons in Hs2 as [Hch3 Hs3].
    destruct (IS_CONTINUATION_BYTE ch3) eqn:E3; cbn [negb];
      [|left; eexists; reflexivity].
    apply continuation_byte_range in E3.
    right. eexists _, s3. split; [reflexivity|]. shifts_to_products.
    split; [unfold scalar_value; lia|].
    split; [|split; [assumption|cbn [length]; lia]].
    unfold utf8_encode_char. settle_tests. cbn [app]. repeat f_equal; euclid. }
  destruct (Z.ltb_spec ch 245) as [H5|H5]; [|left; eexists; reflexivity].
  destruct s1 as [|ch2 s2]; [left; eexists; reflexivity|].
  apply Forall_cons in Hs1 as [Hch2 Hs2].
  destruct (IS_CONTINUATION_BYTE ch2) eqn:E2; cbn [negb orb];
    [|left; eexists; reflexivity].
  apply continuation_byte_range in E2.
  destruct (if ch2 <? 144 then ch =? 240 else ch =? 244) eqn:Er;
    [left; eexists; reflexivity|].
  assert (Hr : (ch = 240 -> 144 <= ch2) /\ (ch = 244 -> ch2 < 144)).
  { destruct (Z.ltb_spec ch2 144);
      [apply Z.eqb_neq in Er|apply Z.eqb_neq in Er]; lia. }
  clear Er.
  destruct s2 as [|ch3 s3]; [left; eexists; reflexivity|].
  apply Forall_cons in Hs2 as [Hch3 Hs3].
  destruct (IS_CONTINUATION_BYTE ch3) eqn:E3; cbn [negb];
    [|left; eexists; reflexivity].
  apply continuation_byte_range in E3.
  destruct s3 as [|ch4 s4]; [left; eexists; reflexivity|].
  apply Forall_cons in Hs3 as [Hch4 Hs4].
  destruct (IS_CONTINUATION_BYTE ch4) eqn:E4; cbn [negb];
    [|left; eexists; reflexivity].
  apply continuation_byte_range in E4.
  right. eexists _, s4. split; [reflexivity|]. shifts_to_products.
  split; [unfold scalar_value; lia|].
  split; [|split; [assumption|cbn [length]; lia]].
  unfold utf8_encode_char. settle_tests. cbn [app]. repeat f_equal; euclid.
Qed.

Lemma decode_utf8_encoding_upto (n : nat) :
  forall b text,
    (length b <= n)%nat -> Forall is_byte b -> decode_utf8 b = Ok text ->
    Forall scalar_value text /\ utf8_encode text = b.
Proof.
  unfold decode_utf8.
  induction n as [|n IH]; intros b text Hn Hb Hd.
  - destruct b; [|simpl in Hn; lia]. cbn in Hd. injection Hd as <-.
    split; [constructor|reflexivity].
  - destruct b as [|ch s1].
    { cbn in Hd. injection Hd as <-. split; [constructor|reflexivity]. }
    destruct (utf8_scan_head ch s1 Hb)
      as [[items E]|(c & s' & E & Hc & Henc & Hs' & Hlen)];
      rewrite E in Hd; cbn [strict_errors] in Hd; [discriminate|].
    destruct (strict_errors (utf8_scan s')) as [u|] eqn:Eu; [|discriminate].
    cbn [bind] in Hd. injection Hd as <-.
    cbn [length] in Hn.
    destruct (IH s' u ltac:(lia) Hs' Eu) as [Hu Hencu].
    split; [now constructor|].
    unfold utf8_encode in *. cbn [map concat]. now rewrite Hencu, Henc.
Qed.

(** What strict decoding returns is the text the bytes encode. *)
Lemma decode_utf8_encoding b text :
  Forall is_byte b -> decode_utf8 b = Ok text ->
  Forall scalar_value text /\ utf8_encode text = b.
Proof. now apply (decode_utf8_encoding_upto (length b)). Qed.

(** Strict decoding succeeds on valid UTF-8 and on nothing else. *)
Lemma decode_utf8_valid b :
  Forall is_byte b -> (valid_utf8 b <-> exists text, decode_utf8 b = Ok text).
Proof.
  intros Hb. split.
  - intros (text & Ht & <-). exists text. now apply decode_utf8_encode.
  - intros [text Hd]. exists text. now apply decode_utf8_encoding.
Qed.

(** ** [unquote] against the definition of percent-decoding *)

Lemma hex_value_hexdig c : is_byte c -> hex_value c = hexdig_value c.
Proof.
  intros Hc. assert (H : hex_agree c = true)
    by (revert c Hc; apply forall_bytes; vm_compute; reflexivity).
  unfold hex_agree in H.
  destruct (hex_value c), (hexdig_value c); try discriminate; [|reflexivity].
  apply Z.eqb_eq in H. now subst.
Qed.

Lemma percent_decode_other c s1 :
  c <> PERCENT -> percent_decode (c :: s1) = c :: percent_decode s1.
Proof.
  intros Hc. apply Z.eqb_neq in Hc.
  destruct s1 as [|h1 [|h2 s3]]; cbn [percent_decode]; try reflexivity.
  rewrite Hc. reflexivity.
Qed.

Lemma join_unquoted_literal s1 :
  hextobyte (take 2 s1) = None ->
  join_unquoted (split PERCENT (PERCENT :: s1))
  = PERCENT :: join_unquoted (split PERCENT s1).
Proof.
  intros Hh. cbn [split]. rewrite Z.eqb_refl.
  destruct (split PERCENT s1) as [|b0 bits] eqn:E; [now apply split_nonempty in E|].
  cbn [join_unquoted map concat app].
  assert (Hb0 : hextobyte (take 2 b0) = None).
  { destruct s1 as [|h1 [|h2 s3]].
    - cbn in E. now injection E as <- <-.
    - cbn [split] in E. destruct (h1 =? PERCENT); cbn in E; now injection E as <- <-.
    - cbn [split] in E. destruct (h1 =? PERCENT); [now injection E as <- <-|].
      destruct (h2 =? PERCENT); [now injection E as <- <-|].
      destruct (split PERCENT s3) as [|b1 bits1]; now injection E as <- <-. }
  unfold unquote_item at 1. rewrite Hb0. reflexivity.
Qed.

Lemma percent_decode_escape h1 h2 s3 :
  percent_decode (PERCENT :: h1 :: h2 :: s3)
  = match hex_value h1, hex_value h2 with
    | Some x, Some y => 16 * x + y :: percent_decode s3
    | _, _ => PERCENT :: percent_decode (h1 :: h2 :: s3)
    end.
Proof. reflexivity. Qed.

Lemma percent_decode_short h1 :
  percent_decode [PERCENT; h1] = PERCENT :: percent_decode [h1].
Proof. reflexivity. Qed.

Lemma hex_value_percent : hex_value PERCENT = None.
Proof. reflexivity. Qed.

Lemma unquote_to_bytes_percent_decode_upto (n : nat) :
  forall r, (length r <= n)%nat -> ascii_bytes r ->
            join_unquoted (split PERCENT r) = percent_decode r.
Proof.
  induction n as [|n IH]; intros r Hn Hr.
  - destruct r; [reflexivity|simpl in Hn; lia].
  - destruct r as [|c s1]; [reflexivity|]. cbn [length] in Hn.
    apply Forall_cons in Hr as [Hc Hs1].
    destruct (Z.eq_dec c PERCENT) as [->|Nc].
    2:{ rewrite join_unquoted_cons, percent_decode_other by assumption.
        f_equal. apply IH; [lia|assumption]. }
    destruct s1 as [|h1 [|h2 s3]].
    + reflexivity.
    + rewrite join_unquoted_literal by reflexivity.
      rewrite percent_decode_short. f_equal. apply IH; [simpl in *; lia|assumption].
    + pose proof Hs1 as Hs1'.
      apply Forall_cons in Hs1 as [Hh1 Hs2]. apply Forall_cons in Hs2 as [Hh2 Hs3].
      assert (Hb1 : is_byte h1)
        by (unfold is_ascii in Hh1; apply andb_true_iff in Hh1; unfold is_byte; lia).
      assert (Hb2 : is_byte h2)
        by (unfold is_ascii in Hh2; apply andb_true_iff in Hh2; unfold is_byte; lia).
      rewrite percent_decode_escape.
      destruct (hex_value h1) as [x|] eqn:E1.
      * destruct (hex_value h2) as [y|] eqn:E2.
        -- assert (N1 : h1 <> PERCENT)
             by (intros ->; rewrite hex_value_percent in E1; discriminate).
           assert (N2 : h2 <> PERCENT)
             by (intros ->; rewrite hex_value_percent in E2; discriminate).
           rewrite (join_unquoted_escape h1 h2 (16 * x + y)); try assumption.
           ++ f_equal. apply IH; [simpl in *; lia|assumption].
           ++ cbn [hextobyte]. rewrite <- !hex_value_hexdig by assumption.
              now rewrite E1, E2.
        -- rewrite join_unquoted_literal.
           ++ f_equal. apply IH; [simpl in *; lia|assumption].
           ++ change (take 2 (h1 :: h2 :: s3)) with [h1; h2]. cbn [hextobyte].
              rewrite <- !hex_value_hexdig by assumption. now rewrite E1, E2.
      * rewrite join_unquoted_literal.
        -- f_equal. apply IH; [simpl in *; lia|assumption].
        -- change (take 2 (h1 :: h2 :: s3)) with [h1; h2]. cbn [hextobyte].
           rewrite <- !hex_value_hexdig by assumption. now rewrite E1.
Qed.

Lemma unquote_to_bytes_percent_decode r :
  ascii_bytes r -> unquote_to_bytes r = percent_decode r.
Proof.
  intros Hr. rewrite unquote_to_bytes_join.
  now apply (unquote_to_bytes_percent_decode_upto (length r)).
Qed.

(** On an ASCII string [unquote] expands the escapes and reads the
    bytes as UTF-8. *)
Lemma unquote_ascii_percent_decode r :
  ascii_bytes r -> unquote r = decode_utf8_replace (percent_decode r).
Proof.
  intros Hr. rewrite unquote_ascii by assumption.
  now rewrite unquote_to_bytes_percent_decode.
Qed.

Lemma unquote_runs_no_percent s run :
  ascii_bytes run ->
  existsb (Z.eqb PERCENT) run = false -> existsb (Z.eqb PERCENT) s = false ->
  unquote_runs run s = run ++ s.
Proof.
  revert run. induction s as [|c s IH]; intros run Hr Hp Hs.
  - cbn [unquote_runs]. unfold unquote_to_bytes.
    rewrite split_no_sep by assumption.
    rewrite decode_utf8_replace_ascii by assumption. now rewrite app_nil_r.
  - cbn [existsb] in Hs. apply orb_false_iff in Hs as [Hc Hs].
    cbn [unquote_runs]. destruct (is_ascii c) eqn:Ec.
    + rewrite IH.
      * now rewrite <- app_assoc.
      * apply Forall_app. split; [assumption|]. now repeat constructor.
      * rewrite existsb_app. cbn [existsb]. now rewrite Hp, Hc.
      * assumption.
    + unfold unquote_to_bytes. rewrite split_no_sep by assumption.
      rewrite decode_utf8_replace_ascii by assumption.
      rewrite IH; [reflexivity|constructor|reflexivity|assumption].
Qed.

Lemma unquote_runs_flush r c rest :
  ascii_bytes r -> is_ascii c = false ->
  forall run,
    unquote_runs run (r ++ c :: rest)
    = decode_utf8_replace (unquote_to_bytes (run ++ r))
        ++ c :: unquote_runs [] rest.
Proof.
  intros Hr Hc. induction Hr as [|x r Hx _ IH]; intros run.
  - cbn [app unquote_runs]. rewrite Hc. now rewrite app_nil_r.
  - cbn [app unquote_runs]. rewrite Hx, IH, <- app_assoc. reflexivity.
Qed.

(** Past a character that is not ASCII, [unquote] starts afresh. *)
Lemma unquote_other r c rest :
  ascii_bytes r -> is_ascii c = false ->
  unquote (r ++ c :: rest)
  = decode_utf8_replace (percent_decode r) ++ c :: unquote rest.
Proof.
  intros Hr Hc.
  assert (Hcp : (PERCENT =? c) = false).
  { apply Z.eqb_neq. intros <-. discriminate. }
  unfold unquote. rewrite existsb_app. cbn [existsb]. rewrite Hcp. cbn [orb].
  destruct (existsb (Z.eqb PERCENT) r) eqn:Epr; cbn [orb negb].
  - rewrite unquote_runs_flush by assumption. cbn [app].
    rewrite unquote_to_bytes_percent_decode by assumption. do 2 f_equal.
    destruct (existsb (Z.eqb PERCENT) rest) eqn:Ep; cbn [negb]; [reflexivity|].
    now rewrite unquote_runs_no_percent by (try constructor; auto).
  - destruct (existsb (Z.eqb PERCENT) rest) eqn:Ep; cbn [negb].
    + rewrite unquote_runs_flush by assumption. cbn [app].
      now rewrite unquote_to_bytes_percent_decode by assumption.
    + rewrite <- unquote_to_bytes_percent_decode by assumption.
      unfold unquote_to_bytes. rewrite split_no_sep by assumption.
      now rewrite decode_utf8_replace_ascii by assumption.
Qed.

(** A string is ASCII, or has a first character that is not. *)
Lemma ascii_prefix text :
  ascii_bytes text
  \/ exists r c rest, text = r ++ c :: rest /\ ascii_bytes r /\ is_ascii c = false.
Proof.
  induction text as [|x text IH]; [left; constructor|].
  destruct (is_ascii x) eqn:Ex.
  - destruct IH as [Ha|(r & c & rest & -> & Hr & Hc)].
    + left. now constructor.
    + right. exists (x :: r), c, rest. repeat split; [|assumption].
      now constructor.
  - right. exists [], x, text. repeat split; [constructor|assumption].
Qed.

Lemma unquote_unquoted_upto (n : nat) :
  forall text, (length text <= n)%nat -> unquoted text (unquote text).
Proof.
  induction n as [|n IH]; intros text Hn.
  - destruct text; [|simpl in Hn; lia].
    rewrite (unquote_ascii_percent_decode []) by constructor.
    apply unquoted_ascii. constructor.
  - destruct (ascii_prefix text) as [Ha|(r & c & rest & -> & Hr & Hc)].
    + rewrite unquote_ascii_percent_decode by assumption.
      now apply unquoted_ascii.
    + rewrite unquote_other by assumption.
      apply unquoted_other; [assumption|assumption|].
      apply IH. rewrite length_app in Hn. cbn [length] in Hn. lia.
Qed.

(** [unquote] percent-decodes. *)
Lemma unquote_unquoted text : unquoted text (unquote text).
Proof. now apply (unquote_unquoted_upto (length text)). Qed.

Lemma ascii_bytes_other r c rest :
  ascii_bytes (r ++ c :: rest) -> is_ascii c = false -> False.
Proof.
  intros H Hc. apply Forall_app in H as [_ H]. apply Forall_cons in H as [H _].
  congruence.
Qed.

Lemma ascii_prefix_unique r c rest r' c' rest' :
  ascii_bytes r -> is_ascii c = false ->
  ascii_bytes r' -> is_ascii c' = false ->
  r ++ c :: rest = r' ++ c' :: rest' -> r = r' /\ c = c' /\ rest = rest'.
Proof.
  intros Hr Hc. revert r'. induction Hr as [|x r Hx _ IH]; intros r' Hr' Hc' E.
  - destruct Hr' as [|x' r' Hx' _]; cbn [app] in E.
    + now injection E as -> ->.
    + injection E as -> _. congruence.
  - destruct Hr' as [|x' r' Hx' Hr']; cbn [app] in E.
    + injection E as -> _. congruence.
    + injection E as -> E. destruct (IH r' Hr' Hc' E) as (-> & -> & ->).
      now repeat split.
Qed.

(** A string has one percent-decoding. *)
Lemma unquoted_functional text u v : unquoted text u -> unquoted text v -> u = v.
Proof.
  intros Hu. revert v. induction Hu as [r Hr|r c rest out Hr Hc _ IH]; intros v Hv.
  - inversion Hv as [r0 Hr0|r0 c0 rest0 out0 Hr0 Hc0 H0 E]; subst; [reflexivity|].
    exfalso. exact (ascii_bytes_other _ _ _ Hr Hc0).
  - inversion Hv as [r0 Hr0|r0 c0 rest0 out0 Hr0 Hc0 H0 E]; subst.
    + exfalso. exact (ascii_bytes_other _ _ _ Hr0 Hc).
    + destruct (ascii_prefix_unique _ _ _ _ _ _ Hr0 Hc0 Hr Hc E) as (-> & -> & ->).
      now rewrite (IH _ H0).
Qed.

Lemma forallb_ascii s : forallb is_ascii s = true -> ascii_bytes s.
Proof.
  intros H. apply Forall_forall. intros c Hc.
  rewrite forallb_forall in H. apply H. now apply list_elem_of_In.
Qed.

Lemma ascii_scalar_values s : ascii_bytes s -> Forall scalar_value s.
Proof.
  intros H. apply (Forall_impl _ _ _ H). intros c Hc. unfold is_ascii in Hc.
  apply andb_true_iff in Hc as [H0 H1]. unfold scalar_value. lia.
Qed.

Lemma decode_utf8_replace_encode t :
  Forall scalar_value t -> decode_utf8_replace (utf8_encode t) = t.
Proof.
  intros Ht. apply decode_utf8_replace_strict. now apply decode_utf8_encode.
Qed.

(** * The claims *)

(** The token of the specification's concrete scenario. *)
Example encode_example :
  encode (str "https://example.com/video?id=42") =
  str "VfxvGYo3N8o0TmiOb5v3B6zRHOebv_ZqdjLzI3YEknENoxgTOw==".
Proof. vm_compute. reflexivity. Qed.

(** C1. Round trip: for every plaintext byte sequence, percent-encoding
    it, encrypting it with the cipher keyed by "8z5Ag5wgagfsOuhz",
    base64-encoding it in the substituted alphabet and running
    [__deobf] on that token returns the plaintext read as UTF-8: the
    text itself whenever the bytes are valid UTF-8 (in general, the
    bytes decoded with U+FFFD at each malformed span). *)
Theorem deobf_encode_round_trip (plain : list Z) :
  Forall is_byte plain ->
  __deobf (encode plain) = Ok (PStr (decode_utf8_replace plain)) /\
  (forall text, decode_utf8 plain = Ok text ->
                __deobf (encode plain) = Ok (PStr text)).
Proof.
  intros Hp. split; [now apply deobf_encode|].
  intros text Ht. rewrite deobf_encode by assumption.
  now rewrite (decode_utf8_replace_strict _ _ Ht).
Qed.

Lemma deobf_encode_round_trip_witness :
  Forall is_byte (str "https://example.com/video?id=42") /\
  __deobf (encode (str "https://example.com/video?id=42")) =
    Ok (PStr (str "https://example.com/video?id=42")).
Proof.
  assert (H : Forall is_byte (str "https://example.com/video?id=42"))
    by (apply forallb_bytes; vm_compute; reflexivity).
  split; [exact H|].
  apply (proj2 (deobf_encode_round_trip _ H)). vm_compute. reflexivity.
Defined.

(** The round trip on the empty plaintext and on multi-byte text
    (h, e-acute, space, euro sign, U+1F600). *)
Example round_trip_empty : __deobf (encode []) = Ok (PStr []).
Proof. now rewrite deobf_encode by constructor. Qed.

Example round_trip_multibyte :
  __deobf (encode [104; 195; 169; 32; 226; 130; 172; 240; 159; 152; 128]) =
    Ok (PStr [104; 233; 32; 8364; 128512]).
Proof.
  rewrite deobf_encode by (apply forallb_bytes; vm_compute; reflexivity).
  vm_compute. reflexivity.
Qed.

(** C2. The loop of lines 115-117 is the classic key schedule: from
    S[i] = i and j = 0, with the 16-byte key "8z5Ag5wgagfsOuhz",
    iteration i sets j = (j + S[i] + K[i mod 16]) mod 256 and then swaps
    S[i] and S[j]; j is carried from one iteration to the next.  After
    any number n <= 256 of iterations the code's state is the state
    [KSA key_bytes n] of that schedule. *)
Theorem key_schedule_rounds (n : nat) :
  (n <= 256)%nat ->
  for_in (range (Z.of_nat n)) (ksa_body key_bytes) (range 256, 0)
    = Ok (KSA key_bytes n)
  /\ (forall i, 0 <= i < 256 -> entry (fst (KSA key_bytes 0)) i = i)
  /\ snd (KSA key_bytes 0) = 0
  /\ len key_bytes = 16
  /\ KSA key_bytes (S n) =
       (let '(T, j) := KSA key_bytes n in
        let j' := (j + entry T (Z.of_nat n)
                     + entry key_bytes (Z.of_nat n mod 16)) mod 256 in
        (swap T (Z.of_nat n) j', j')).
Proof.
  intros Hn. split; [apply ksa_loop_KSA; [apply key_bytes_nonempty|exact Hn]|].
  split; [|repeat split].
  intros i Hi. cbn [KSA fst]. unfold entry.
  rewrite lookup_seqZ_lt by lia. cbn. lia.
Qed.

Lemma key_schedule_rounds_witness :
  key_schedule = Ok (KSA key_bytes 256).
Proof. exact (proj1 (key_schedule_rounds 256 (le_n 256))). Defined.

(** C3. The loop of lines 119-134 is the keystream loop: i and k start
    at 0; at each position p of the decoded bytes B it sets
    i = (i+1) mod 256, k = (k + S[i]) mod 256, swaps S[i] and S[k],
    takes t = (S[i] + S[k]) mod 256 and writes B[p] xor S[t]; the table
    is carried from one position to the next.  After n positions
    [decoded] holds the first n output bytes, and after the loop the
    whole output, as long as B. *)
Theorem decrypt_loop_is_PRGA (T B : list Z) (n : nat) :
  table T -> Forall is_byte B -> (n <= length B)%nat ->
  for_in (range (Z.of_nat n)) (decrypt_body (bytes_items B))
    (LoopState T 0 0 (PByteArray (bytearray_zeros (len B))))
    = (let '(Tn, i, k) := PRGA_state T 0 0 n in
       Ok (LoopState Tn i k
             (PByteArray (PRGA T 0 0 (take n B)
                          ++ replicate (length B - n) 0))))
  /\ decrypt T (bytes_items B)
     = (let '(Tn, i, k) := PRGA_state T 0 0 (length B) in
        Ok (LoopState Tn i k (PByteArray (PRGA T 0 0 B))))
  /\ length (PRGA T 0 0 B) = length B.
Proof.
  intros HT HB Hn. split; [now apply decrypt_prefix|].
  split; [now apply decrypt_bytes|apply length_PRGA].
Qed.

Lemma decrypt_loop_is_PRGA_witness :
  decrypt (fst (KSA key_bytes 256)) (bytes_items [86; 252; 111])
  = (let '(Tn, i, k) := PRGA_state (fst (KSA key_bytes 256)) 0 0 3 in
     Ok (LoopState Tn i k
           (PByteArray (PRGA (fst (KSA key_bytes 256)) 0 0 [86; 252; 111])))).
Proof.
  refine (proj1 (proj2 (decrypt_loop_is_PRGA (fst (KSA key_bytes 256))
                          [86; 252; 111] 3 (KSA_table key_bytes 256) _ _))).
  - apply forallb_bytes. vm_compute. reflexivity.
  - simpl. lia.
Defined.

(** C4. The normalization maps every [_] to [/] and every [-] to [+]
    and changes no other character; a token decodes as its
    standard-alphabet equivalent does. *)
Theorem standardize_then_decode (encoded_url : list Z) :
  standardize encoded_url = map standard_char encoded_url
  /\ standard_char 95 = 47 /\ standard_char 45 = 43
  /\ (forall c, c <> 95 -> c <> 45 -> standard_char c = c)
  /\ __deobf encoded_url = __deobf (standardize encoded_url).
Proof.
  split; [apply standardize_map|]. repeat split.
  - intros c H1 H2. unfold standard_char.
    apply Z.eqb_neq in H1, H2. now rewrite H1, H2.
  - unfold __deobf. now rewrite standardize_idempotent.
Qed.

Lemma standardize_then_decode_witness :
  standard_char 46 = 46
  /\ __deobf (str "VfxvGYo3N8o0TmiOb5v3B6zRHOebv_ZqdjLzI3YEknENoxgTOw==")
     = __deobf (str "VfxvGYo3N8o0TmiOb5v3B6zRHOebv/ZqdjLzI3YEknENoxgTOw==").
Proof.
  pose proof (standardize_then_decode
                (str "VfxvGYo3N8o0TmiOb5v3B6zRHOebv_ZqdjLzI3YEknENoxgTOw=="))
    as (_ & _ & _ & Hc & Hd).
  split; [apply Hc; lia|exact Hd].
Defined.




(** C6. Let a token decode from base64 to [binary_data].  When the
    decrypted bytes are not valid UTF-8, that is, are the UTF-8 encoding
    of no sequence of scalar values, [__deobf] raises
    [UnicodeDecodeError].  When they are the encoding of [text], it
    returns a string [url] that is [text] percent-decoded: the [%XX]
    escapes of each ASCII stretch of [text] are expanded and the bytes
    read as UTF-8.  In particular, when [text] is ASCII and expanding
    its escapes gives the UTF-8 encoding of [t], the result is [t]. *)
Theorem decode_then_unquote (encoded_url binary_data : list Z) :
  b64decode (standardize encoded_url) = Ok binary_data ->
  (~ valid_utf8 (rc4 key_bytes binary_data) ->
   __deobf encoded_url = Raise UnicodeDecodeError)
  /\ (forall text : list Z,
        Forall scalar_value text ->
        utf8_encode text = rc4 key_bytes binary_data ->
        exists url : list Z,
          __deobf encoded_url = Ok (PStr url)
          /\ unquoted text url
          /\ (forallb is_ascii text = true ->
              forall t : list Z,
                Forall scalar_value t ->
                percent_decode text = utf8_encode t -> url = t)).
Proof.
  intros H. pose proof (rc4_bytes key_bytes _ (b64decode_bytes _ _ H)) as Hb.
  rewrite deobf_unfold, H. cbn [bind]. split.
  - intros Hv.
    destruct (decode_utf8 (rc4 key_bytes binary_data)) as [text|e] eqn:E.
    + exfalso. apply Hv. apply decode_utf8_valid; [assumption|]. now exists text.
    + cbn [bind]. now rewrite (strict_errors_raise _ _ E).
  - intros text Ht <-. rewrite decode_utf8_encode by assumption. cbn [bind].
    exists (unquote text). split; [reflexivity|]. split; [apply unquote_unquoted|].
    intros Ha t Hs Ht'. apply forallb_ascii in Ha.
    rewrite unquote_ascii_percent_decode, Ht' by assumption.
    now apply decode_utf8_replace_encode.
Qed.

Lemma decode_then_unquote_witness :
  __deobf (str "wg==") = Raise UnicodeDecodeError
  /\ __deobf (str "VfxvGYo3N8o0TmiOb5v3B6zRHOebv_ZqdjLzI3YEknENoxgTOw==")
     = Ok (PStr (str "https://example.com/video?id=42")).
Proof.
  split.
  - assert (H : b64decode (standardize (str "wg==")) = Ok [194])
      by (vm_compute; reflexivity).
    apply (proj1 (decode_then_unquote (str "wg==") [194] H)).
    assert (E : decode_utf8 (rc4 key_bytes [194]) = Raise UnicodeDecodeError)
      by (vm_compute; reflexivity).
    intros Hv. apply decode_utf8_valid in Hv as [text Ht].
    + rewrite E in Ht. discriminate.
    + apply forallb_bytes. vm_compute. reflexivity.
  - assert (H : b64decode (standardize
                  (str "VfxvGYo3N8o0TmiOb5v3B6zRHOebv_ZqdjLzI3YEknENoxgTOw=="))
                = Ok [85; 252; 111; 25; 138; 55; 55; 202; 52; 78; 104; 142; 111;
                      155; 247; 7; 172; 209; 28; 231; 155; 191; 246; 106; 118;
                      50; 243; 35; 118; 4; 146; 113; 13; 163; 24; 19; 59])
      by (vm_compute; reflexivity).
    destruct (proj2 (decode_then_unquote _ _ H)
                (str "https%3A//example.com/video%3Fid%3D42"))
      as (url & Hd & _ & Ha).
    + apply ascii_scalar_values, forallb_ascii. vm_compute. reflexivity.
    + vm_compute. reflexivity.
    + rewrite Hd. do 2 f_equal.
      apply Ha.
      * vm_compute. reflexivity.
      * apply ascii_scalar_values, forallb_ascii. vm_compute. reflexivity.
      * vm_compute. reflexivity.
Defined.

(** C7. The empty token decodes to the empty string: base64 decoding
    yields no byte, the key schedule runs its 256 iterations, the
    decryption loop iterates over the empty range and leaves the table
    and [decoded] as they were, and the result is "". *)
Theorem deobf_empty :
  b64decode (standardize (str "")) = Ok []
  /\ length (range 256) = 256%nat
  /\ key_schedule = Ok (KSA key_bytes 256)
  /\ range (len (bytes_items [])) = []
  /\ decrypt (fst (KSA key_bytes 256)) (bytes_items [])
     = Ok (LoopState (fst (KSA key_bytes 256)) 0 0 (PByteArray []))
  /\ __deobf (str "") = Ok (PStr (str "")).
Proof.
  split; [reflexivity|]. split; [reflexivity|].
  split; [apply key_schedule_KSA|]. split; [reflexivity|].
  split; [reflexivity|].
  rewrite deobf_unfold. reflexivity.
Qed.

(** C8. A call returns a result that depends on the token alone and
    leaves the object as it was: two calls in a row with the same token,
    from any object, return the same result. *)
Theorem deobf_call_deterministic {Response : Type}
    (self self' : scraper Response) (encoded_url : list Z) :
  let '(r1, self1) := deobf_call self encoded_url in
  let '(r2, self2) := deobf_call self1 encoded_url in
  r1 = r2 /\ self1 = self /\ self2 = self
  /\ fst (deobf_call self' encoded_url) = r1.
Proof. unfold deobf_call. cbn. auto. Qed.

(** The [else] branch of line 134 is live code: on an item that is
    neither [str] nor [int] it rebinds [decoded] to [False]. *)
Example else_branch_on_other_item :
  match decrypt (fst (KSA key_bytes 256)) [PNone] with
  | Ok st => st_decoded st
  | Raise _ => PNone
  end = PBool false
  /\ decode_method (PBool false) = Raise AttributeError.
Proof. split; [vm_compute; reflexivity|reflexivity]. Qed.

(** C9. On the bytes base64 decoding returns, every item is an [int]:
    after any number of iterations [decoded] is still a bytearray of
    the length of the input, never [False]; and a result of [__deobf]
    is a string. *)
Theorem decoded_never_False (encoded_url binary_data : list Z) (n : nat) :
  b64decode (standardize encoded_url) = Ok binary_data ->
  (n <= length binary_data)%nat ->
  (exists sj st d,
     key_schedule = Ok sj
     /\ for_in (range (Z.of_nat n)) (decrypt_body (bytes_items binary_data))
          (LoopState (fst sj) 0 0
             (PByteArray (bytearray_zeros (len binary_data)))) = Ok st
     /\ st_decoded st = PByteArray d
     /\ length d = length binary_data)
  /\ (forall v, __deobf encoded_url = Ok v -> exists text, v = PStr text).
Proof.
  intros HB Hn.
  assert (Hbytes : Forall is_byte binary_data) by (eapply b64decode_bytes; eauto).
  pose proof (decrypt_prefix (fst (KSA key_bytes 256)) binary_data n
                (KSA_table key_bytes 256) Hbytes Hn) as Hloop.
  destruct (PRGA_state (fst (KSA key_bytes 256)) 0 0 n) as [[Tn i] k].
  split; [|apply deobf_returns_str].
  exists (KSA key_bytes 256). eexists. eexists.
  split; [apply key_schedule_KSA|]. split; [exact Hloop|].
  split; [reflexivity|].
  rewrite length_app, length_PRGA, length_take_le, length_replicate by lia. lia.
Qed.

Lemma decoded_never_False_witness :
  (exists sj st d,
     key_schedule = Ok sj
     /\ for_in (range 3) (decrypt_body (bytes_items [85; 252; 111]))
          (LoopState (fst sj) 0 0 (PByteArray (bytearray_zeros 3))) = Ok st
     /\ st_decoded st = PByteArray d
     /\ length d = 3%nat)
  /\ (forall v, __deobf (str "Vfxv") = Ok v -> exists text, v = PStr text).
Proof.
  refine (decoded_never_False (str "Vfxv") [85; 252; 111] 3 _ _).
  - vm_compute. reflexivity.
  - simpl. lia.
Defined.

(** C10. The table is a permutation of 0..255 when it is created,
    after every iteration of the key schedule, and after every
    iteration (every swap) of the decryption loop. *)
Theorem table_always_permutation (n : nat) (binary_data : list Z) (m : nat) :
  (n <= 256)%nat -> Forall is_byte binary_data ->
  (m <= length binary_data)%nat ->
  Permutation (range 256) (seqZ 0 256)
  /\ (exists T j,
        for_in (range (Z.of_nat n)) (ksa_body key_bytes) (range 256, 0)
          = Ok (T, j)
        /\ Permutation T (seqZ 0 256))
  /\ (exists sj st,
        key_schedule = Ok sj
        /\ for_in (range (Z.of_nat m)) (decrypt_body (bytes_items binary_data))
             (LoopState (fst sj) 0 0
                (PByteArray (bytearray_zeros (len binary_data)))) = Ok st
        /\ Permutation (st_s st) (seqZ 0 256)).
Proof.
  intros Hn HB Hm. split; [reflexivity|]. split.
  - pose proof (ksa_loop_KSA key_bytes n key_bytes_nonempty Hn) as Hloop.
    pose proof (KSA_Permutation key_bytes n Hn) as Hperm.
    destruct (KSA key_bytes n) as [T j]. exists T, j. split; assumption.
  - pose proof (decrypt_prefix (fst (KSA key_bytes 256)) binary_data m
                  (KSA_table key_bytes 256) HB Hm) as Hloop.
    pose proof (PRGA_state_Permutation (fst (KSA key_bytes 256)) 0 0 m
                  (KSA_table key_bytes 256)) as Hperm.
    destruct (PRGA_state (fst (KSA key_bytes 256)) 0 0 m) as [[Tm i] k].
    exists (KSA key_bytes 256). eexists.
    split; [apply key_schedule_KSA|]. split; [exact Hloop|].
    cbn [st_s]. cbn [fst] in Hperm. rewrite Hperm.
    apply KSA_Permutation. lia.
Qed.

Lemma table_always_permutation_witness :
  Permutation (range 256) (seqZ 0 256)
  /\ (exists T j,
        for_in (range 256) (ksa_body key_bytes) (range 256, 0) = Ok (T, j)
        /\ Permutation T (seqZ 0 256))
  /\ (exists sj st,
        key_schedule = Ok sj
        /\ for_in (range 3) (decrypt_body (bytes_items [86; 252; 111]))
             (LoopState (fst sj) 0 0 (PByteArray (bytearray_zeros 3))) = Ok st
        /\ Permutation (st_s st) (seqZ 0 256)).
Proof.
  refine (table_always_permutation 256 [86; 252; 111] 3 _ _ _).
  - lia.
  - apply forallb_bytes. vm_compute. reflexivity.
  - simpl. lia.
Defined.

(** * Further properties of the cipher loop *)

Lemma PRGA_keystream T i k B :
  PRGA T i k B = zip_with Z.lxor B (keystream T i k (length B)).
Proof.
  revert T i k. induction B as [|b B IH]; intros T i k; [reflexivity|].
  cbn [PRGA length keystream zip_with]. now rewrite IH.
Qed.

Lemma decoded_bytes_decrypt T B :
  table T -> Forall is_byte B ->
  decoded_bytes (decrypt T (bytes_items B)) = Some (PRGA T 0 0 B).
Proof.
  intros HT HB. rewrite decrypt_bytes by assumption.
  destruct (PRGA_state T 0 0 (length B)) as [[Tn i] k]. reflexivity.
Qed.

(** X1. The decryption loop undoes itself: run from the same table on
    its own output, it returns its input. *)
Theorem decrypt_involutive (T B : list Z) :
  table T -> Forall is_byte B ->
  exists D,
    decoded_bytes (decrypt T (bytes_items B)) = Some D
    /\ decoded_bytes (decrypt T (bytes_items D)) = Some B.
Proof.
  intros HT HB. exists (PRGA T 0 0 B).
  split; [now apply decoded_bytes_decrypt|].
  rewrite decoded_bytes_decrypt; [|assumption|apply PRGA_bytes; [apply HT|assumption]].
  now rewrite PRGA_involutive.
Qed.

Lemma decrypt_involutive_witness :
  exists D,
    decoded_bytes (decrypt (fst (KSA key_bytes 256)) (bytes_items [104; 105]))
      = Some D
    /\ decoded_bytes (decrypt (fst (KSA key_bytes 256)) (bytes_items D))
       = Some [104; 105].
Proof.
  refine (decrypt_involutive (fst (KSA key_bytes 256)) [104; 105]
            (KSA_table key_bytes 256) _).
  apply forallb_bytes. vm_compute. reflexivity.
Defined.

(** X2. The output byte at a position depends on the input byte at
    that position and on nothing else of the input: two inputs of the
    same length that agree at position p decode to outputs that agree
    at p, and leave the same table. *)
Theorem decrypt_position_local (T B B' : list Z) (p : nat) :
  table T -> Forall is_byte B -> Forall is_byte B' ->
  length B = length B' -> B !! p = B' !! p ->
  exists st st' D D',
    decrypt T (bytes_items B) = Ok st
    /\ decrypt T (bytes_items B') = Ok st'
    /\ st_decoded st = PByteArray D /\ st_decoded st' = PByteArray D'
    /\ D !! p = D' !! p
    /\ st_s st = st_s st'.
Proof.
  intros HT HB HB' Hlen Hp.
  rewrite !decrypt_bytes by assumption. rewrite <- Hlen.
  destruct (PRGA_state T 0 0 (length B)) as [[Tn i] k].
  do 4 eexists. repeat (split; [reflexivity|]). split; [|reflexivity].
  rewrite !PRGA_keystream, <- Hlen, !lookup_zip_with, Hp. reflexivity.
Qed.

Lemma decrypt_position_local_witness :
  exists st st' D D',
    decrypt (fst (KSA key_bytes 256)) (bytes_items [1; 2; 3]) = Ok st
    /\ decrypt (fst (KSA key_bytes 256)) (bytes_items [9; 2; 7]) = Ok st'
    /\ st_decoded st = PByteArray D /\ st_decoded st' = PByteArray D'
    /\ D !! 1%nat = D' !! 1%nat
    /\ st_s st = st_s st'.
Proof.
  refine (decrypt_position_local (fst (KSA key_bytes 256)) [1; 2; 3] [9; 2; 7]
            1 (KSA_table key_bytes 256) _ _ _ _).
  - apply forallb_bytes. vm_compute. reflexivity.
  - apply forallb_bytes. vm_compute. reflexivity.
  - reflexivity.
  - reflexivity.
Defined.

Lemma zip_with_lxor_bytes B D :
  Forall is_byte B -> Forall is_byte D -> Forall is_byte (zip_with Z.lxor B D).
Proof.
  intros HB. revert D. induction HB as [|b B Hb _ IH]; intros D HD; [constructor|].
  destruct HD as [|d D Hd HD]; [constructor|].
  cbn [zip_with]. constructor; [now apply lxor_byte|now apply IH].
Qed.

Lemma PRGA_lxor T i k B D :
  length D = length B ->
  PRGA T i k (zip_with Z.lxor B D) = zip_with Z.lxor (PRGA T i k B) D.
Proof.
  revert T i k D. induction B as [|b B IH]; intros T i k D Hlen.
  - destruct D; [reflexivity|discriminate].
  - destruct D as [|d D]; [discriminate|]. injection Hlen as Hlen.
    cbn [zip_with PRGA]. rewrite IH by assumption. f_equal.
    rewrite !Z.lxor_assoc. f_equal. apply Z.lxor_comm.
Qed.

(** X3. Flipping bits of the input flips the same bits of the output:
    the loop on [B xor D] writes [decoded(B) xor D]. *)
Theorem decrypt_lxor (T B D : list Z) :
  table T -> Forall is_byte B -> Forall is_byte D -> length D = length B ->
  exists out,
    decoded_bytes (decrypt T (bytes_items B)) = Some out
    /\ decoded_bytes (decrypt T (bytes_items (zip_with Z.lxor B D)))
       = Some (zip_with Z.lxor out D).
Proof.
  intros HT HB HD Hlen. exists (PRGA T 0 0 B).
  split; [now apply decoded_bytes_decrypt|].
  rewrite decoded_bytes_decrypt by (auto using zip_with_lxor_bytes).
  now rewrite PRGA_lxor.
Qed.

Lemma decrypt_lxor_witness :
  exists out,
    decoded_bytes (decrypt (fst (KSA key_bytes 256)) (bytes_items [104; 105]))
      = Some out
    /\ decoded_bytes (decrypt (fst (KSA key_bytes 256)) (bytes_items [105; 107]))
       = Some (zip_with Z.lxor out [1; 2]).
Proof.
  refine (decrypt_lxor (fst (KSA key_bytes 256)) [104; 105] [1; 2]
            (KSA_table key_bytes 256) _ _ _).
  - apply forallb_bytes. vm_compute. reflexivity.
  - apply forallb_bytes. vm_compute. reflexivity.
  - reflexivity.
Defined.

(** X4. A truncated input decodes to the truncated output: the loop on
    the first n bytes of B writes the first n bytes it writes on B. *)
Theorem decrypt_prefix_of_output (T B : list Z) (n : nat) :
  table T -> Forall is_byte B ->
  exists out,
    decoded_bytes (decrypt T (bytes_items B)) = Some out
    /\ decoded_bytes (decrypt T (bytes_items (take n B))) = Some (take n out).
Proof.
  intros HT HB. exists (PRGA T 0 0 B).
  split; [now apply decoded_bytes_decrypt|].
  rewrite decoded_bytes_decrypt by (auto using Forall_take).
  f_equal. destruct (decide (n <= length B)%nat) as [Hn|Hn].
  - rewrite <- (take_drop n B) at 2. rewrite PRGA_app.
    rewrite take_app_length'; [reflexivity|].
    rewrite length_PRGA, length_take_le; lia.
  - rewrite !take_ge; [reflexivity|rewrite length_PRGA|]; lia.
Qed.

Lemma decrypt_prefix_of_output_witness :
  exists out,
    decoded_bytes (decrypt (fst (KSA key_bytes 256)) (bytes_items [1; 2; 3]))
      = Some out
    /\ decoded_bytes (decrypt (fst (KSA key_bytes 256)) (bytes_items [1; 2]))
       = Some (take 2 out).
Proof.
  refine (decrypt_prefix_of_output (fst (KSA key_bytes 256)) [1; 2; 3] 2
            (KSA_table key_bytes 256) _).
  apply forallb_bytes. vm_compute. reflexivity.
Defined.

(** * Further properties of [__deobf] *)

(** ** What follows a closing pad is not read *)

Lemma len_cons3 (x y z : Z) (b : list Z) : len (x :: y :: z :: b) = len b + 1 * 3.
Proof. unfold len. cbn [length]. lia. Qed.

Lemma a2b_base64_loop_app_done data s q l p acc :
  reaches_done data q p = true ->
  a2b_base64_loop (data ++ s) q l p acc = a2b_base64_loop data q l p acc.
Proof.
  revert q l p acc. induction data as [|c data IH]; intros q l p acc H;
    [discriminate|].
  cbn [reaches_done] in H. cbn [app a2b_base64_loop].
  destruct (c =? BASE64_PAD).
  - destruct (2 <=? q); [|now apply IH].
    destruct (4 <=? q + (p + 1)); [reflexivity|now apply IH].
  - cbv zeta. destruct (64 <=? table_a2b_base64 c); [now apply IH|].
    destruct (q =? 0); [now apply IH|].
    destruct (q =? 1); [now apply IH|].
    destruct (q =? 2); now apply IH.
Qed.

Lemma reaches_done_digit v rest q p :
  is_sextet v = true ->
  reaches_done (b2a_digit v :: rest) q p =
    if q =? 0 then reaches_done rest 1 0
    else if q =? 1 then reaches_done rest 2 0
    else if q =? 2 then reaches_done rest 3 0
    else reaches_done rest 0 0.
Proof.
  intros Hv. pose proof (b2a_digit_ok v Hv) as Hok.
  unfold digit_ok in Hok. cbv zeta in Hok.
  repeat (apply andb_true_iff in Hok as [Hok ?]).
  cbn [reaches_done].
  destruct (b2a_digit v =? BASE64_PAD); [discriminate|].
  replace (table_a2b_base64 (b2a_digit v)) with v by (symmetry; now apply Z.eqb_eq).
  unfold is_sextet in Hv. apply andb_true_iff in Hv as [_ Hv].
  destruct (64 <=? v) eqn:E; [apply Z.leb_le in E; apply Z.ltb_lt in Hv; lia|].
  reflexivity.
Qed.

(** The tokens with padding that a base64 encoder writes are among
    those in which the decoder reaches a closing pad. *)
Lemma reaches_done_b64encode (b : list Z) :
  Forall is_byte b -> len b mod 3 <> 0 -> reaches_done (b64encode b) 0 0 = true.
Proof.
  induction b as [|x|x y|x y z b IH] using list_ind3; intros Hb Hn.
  - now cbn in Hn.
  - apply Forall_cons in Hb as [Hx _]. pose proof byte_0 as H0.
    cbn [b64encode].
    rewrite reaches_done_digit by now apply sextet0_range.
    cbn [Z.eqb].
    rewrite reaches_done_digit by now apply sextet1_range.
    reflexivity.
  - apply Forall_cons in Hb as [Hx Hb]. apply Forall_cons in Hb as [Hy _].
    pose proof byte_0 as H0.
    cbn [b64encode].
    rewrite reaches_done_digit by now apply sextet0_range.
    cbn [Z.eqb].
    rewrite reaches_done_digit by now apply sextet1_range.
    cbn [Z.eqb Pos.eqb].
    rewrite reaches_done_digit by now apply sextet2_range.
    reflexivity.
  - apply Forall_cons in Hb as [Hx Hb]. apply Forall_cons in Hb as [Hy Hb].
    apply Forall_cons in Hb as [Hz Hb].
    rewrite len_cons3, Z.mod_add in Hn by lia.
    cbn [b64encode].
    rewrite reaches_done_digit by now apply sextet0_range.
    cbn [Z.eqb].
    rewrite reaches_done_digit by now apply sextet1_range.
    cbn [Z.eqb Pos.eqb].
    rewrite reaches_done_digit by now apply sextet2_range.
    cbn [Z.eqb Pos.eqb].
    rewrite reaches_done_digit by now apply sextet3_range.
    cbn [Z.eqb Pos.eqb]. now apply IH.
Qed.

Lemma len_rc4 K b : len (rc4 K b) = len b.
Proof. unfold len, rc4. now rewrite length_PRGA. Qed.

(** X5. Once the decoder has met the pad that closes a group, it reads
    no further: an ASCII token in which that happens may be followed by
    any ASCII text, and decodes as it does alone.  A token that only
    ends in [=] without closing a group ("Vf=", "Vfxv=") is not such a
    token. *)
Theorem deobf_ignores_trailing_text (encoded_url s : list Z) :
  forallb is_ascii encoded_url = true -> forallb is_ascii s = true ->
  reaches_done (standardize encoded_url) 0 0 = true ->
  __deobf (encoded_url ++ s) = __deobf encoded_url.
Proof.
  intros Ht Hs Hd. rewrite !deobf_unfold.
  rewrite (standardize_map (_ ++ _)), map_app, <- !standardize_map.
  unfold b64decode, bytes_from_decode_data.
  rewrite forallb_app, !standardize_ascii, Ht, Hs. cbn [andb bind].
  unfold a2b_base64. now rewrite a2b_base64_loop_app_done.
Qed.

Lemma deobf_ignores_trailing_text_witness :
  __deobf (str "DLgrTA==" ++ str "&t=10") = __deobf (str "DLgrTA==")
  /\ reaches_done (standardize (str "Vfxv=")) 0 0 = false
  /\ reaches_done (standardize (str "Vf=")) 0 0 = false.
Proof.
  split; [|split; reflexivity].
  apply deobf_ignores_trailing_text; reflexivity.
Defined.

(** ** The exceptions [__deobf] raises *)




(** ** The size of the result *)

Lemma a2b_base64_loop_size data q l p acc out :
  0 <= q < 4 ->
  a2b_base64_loop data q l p acc = Ok out ->
  4 * (len out - len acc)
  <= 3 * len (filter (fun c => is_digit c = true) data) + open_group_credit q.
Proof.
  revert q l p acc. induction data as [|c data IH]; intros q l p acc Hq H.
  - simpl in H. destruct (q =? 0); [|discriminate]. injection H as <-.
    unfold open_group_credit, len. cbn. destruct (q =? 0); lia.
  - assert (Hcred : 0 <= open_group_credit q)
      by (unfold open_group_credit; destruct (q =? 0); lia).
    cbn [a2b_base64_loop] in H.
    destruct (c =? BASE64_PAD) eqn:Ec.
    + assert (Hstep : 4 * (len out - len acc)
                      <= 3 * len (filter (fun c => is_digit c = true) data)
                         + open_group_credit q).
      { destruct (2 <=? q).
        - destruct (4 <=? q + (p + 1)).
          + injection H as <-. unfold len. lia.
          + now apply IH in H.
        - now apply IH in H. }
      destruct (is_digit c) eqn:Ed.
      * rewrite filter_cons_True by assumption. unfold len in *. cbn [length]. lia.
      * rewrite filter_cons_False by congruence. exact Hstep.
    + cbv zeta in H.
      destruct (is_digit c) eqn:Ed.
      2:{ rewrite filter_cons_False by congruence.
          unfold is_digit in Ed. apply Z.ltb_ge in Ed.
          destruct (64 <=? table_a2b_base64 c) eqn:E;
            [|apply Z.leb_gt in E; lia].
          now apply IH in H. }
      * rewrite filter_cons_True by assumption.
        unfold is_digit in Ed. apply Z.ltb_lt in Ed.
        destruct (64 <=? table_a2b_base64 c) eqn:E;
          [apply Z.leb_le in E; lia|].
        set (n := len (filter (fun c => is_digit c = true) data)) in *.
        assert (Hn : len (c :: filter (fun c => is_digit c = true) data) = n + 1)
          by (unfold n, len; cbn [length]; lia).
        rewrite Hn. unfold open_group_credit.
        destruct (Z.eqb_spec q 0) as [->|N0].
        { apply IH in H; [|lia]. fold n in H. unfold open_group_credit in H.
          cbn in H. lia. }
        destruct (Z.eqb_spec q 1) as [->|N1].
        { apply IH in H; [|lia]. fold n in H. unfold open_group_credit in H.
          cbn in H. unfold len in *. rewrite length_app in H. cbn in H. lia. }
        destruct (Z.eqb_spec q 2) as [->|N2].
        { apply IH in H; [|lia]. fold n in H. unfold open_group_credit in H.
          cbn in H. unfold len in *. rewrite length_app in H. cbn in H. lia. }
        apply IH in H; [|lia]. fold n in H. unfold open_group_credit in H.
        cbn in H. unfold len in *. rewrite length_app in H. cbn in H. lia.
Qed.

Lemma length_filter_le {A : Type} (P : A -> bool) (l : list A) :
  (length (filter (fun x => P x = true) l) <= length l)%nat.
Proof. apply length_filter. Qed.

Lemma b64decode_size s B :
  b64decode s = Ok B -> 4 * len B <= 3 * len s.
Proof.
  unfold b64decode, bytes_from_decode_data, a2b_base64.
  destruct (forallb is_ascii s); cbn [bind]; [|discriminate].
  intros H. apply a2b_base64_loop_size in H; [|lia].
  pose proof (length_filter_le is_digit s) as Hf.
  unfold open_group_credit, len in *. cbn in H. lia.
Qed.

(** One step of the scan: a lone [Malformed] for a sequence the data
    ends in, or one item and the scan of a shorter rest. *)
Lemma utf8_scan_step ch s1 :
  utf8_scan (ch :: s1) = [Malformed]
  \/ exists item s', utf8_scan (ch :: s1) = item :: utf8_scan s'
                     /\ (length s' <= length s1)%nat.
Proof.
  cbn [utf8_scan].
  repeat case_match; subst; try (left; reflexivity);
    right; eexists _, _; (split; [reflexivity|cbn [length]; lia]).
Qed.

Lemma length_utf8_scan_upto (n : nat) :
  forall s, (length s <= n)%nat -> (length (utf8_scan s) <= length s)%nat.
Proof.
  induction n as [|n IH]; intros s Hs.
  - destruct s; [simpl; lia|simpl in Hs; lia].
  - destruct s as [|ch s1]; [simpl; lia|]. cbn [length] in Hs.
    destruct (utf8_scan_step ch s1) as [->|(item & s' & -> & Hlen)].
    + cbn [length]. lia.
    + cbn [length]. specialize (IH s'). lia.
Qed.

Lemma length_utf8_scan s : (length (utf8_scan s) <= length s)%nat.
Proof. now apply (length_utf8_scan_upto (length s)). Qed.

Lemma length_strict_errors items u :
  strict_errors items = Ok u -> length u = length items.
Proof.
  revert u. induction items as [|[c|] items IH]; intros u H; simpl in H.
  - now injection H as <-.
  - destruct (strict_errors items) as [v|]; [|discriminate].
    injection H as <-. simpl. f_equal. now apply IH.
  - discriminate.
Qed.

Lemma decode_utf8_size b u : decode_utf8 b = Ok u -> len u <= len b.
Proof.
  intros H. apply length_strict_errors in H. pose proof (length_utf8_scan b).
  unfold len. lia.
Qed.

Lemma decode_utf8_replace_size b : (length (decode_utf8_replace b) <= length b)%nat.
Proof.
  unfold decode_utf8_replace, replace_errors. rewrite length_map.
  apply length_utf8_scan.
Qed.

Lemma pieces_size_split sep s : pieces_size (split sep s) = length s.
Proof.
  induction s as [|c s IH]; [reflexivity|].
  cbn [split]. destruct (c =? sep).
  - destruct (split sep s) as [|b0 bits] eqn:E; [now apply split_nonempty in E|].
    cbn [pieces_size separated_size length] in *. lia.
  - destruct (split sep s) as [|b0 bits] eqn:E; [now apply split_nonempty in E|].
    cbn [pieces_size length] in *. lia.
Qed.

Lemma length_unquote_item item : (length (unquote_item item) <= S (length item))%nat.
Proof.
  unfold unquote_item. destruct (hextobyte (take 2 item)); cbn [length]; [|lia].
  rewrite length_drop. lia.
Qed.

Lemma length_concat_unquote_items bits :
  (length (concat (map unquote_item bits)) <= separated_size bits)%nat.
Proof.
  induction bits as [|b bits IH]; [simpl; lia|].
  cbn [map concat separated_size]. rewrite length_app.
  pose proof (length_unquote_item b). lia.
Qed.

Lemma length_unquote_to_bytes s : (length (unquote_to_bytes s) <= length s)%nat.
Proof.
  rewrite unquote_to_bytes_join, <- (pieces_size_split PERCENT s).
  destruct (split PERCENT s) as [|b0 bits]; [simpl; lia|].
  cbn [join_unquoted pieces_size]. rewrite length_app.
  pose proof (length_concat_unquote_items bits). lia.
Qed.

Lemma length_unquote_runs s run :
  (length (unquote_runs run s) <= length run + length s)%nat.
Proof.
  revert run. induction s as [|c s IH]; intros run; cbn [unquote_runs].
  - pose proof (decode_utf8_replace_size (unquote_to_bytes run)).
    pose proof (length_unquote_to_bytes run). simpl. lia.
  - destruct (is_ascii c).
    + specialize (IH (run ++ [c])). rewrite length_app in IH. simpl in *. lia.
    + rewrite length_app. cbn [length].
      pose proof (decode_utf8_replace_size (unquote_to_bytes run)).
      pose proof (length_unquote_to_bytes run).
      specialize (IH []). simpl in *. lia.
Qed.

Lemma unquote_size s : len (unquote s) <= len s.
Proof.
  unfold unquote, len. destruct (negb _); [lia|].
  pose proof (length_unquote_runs s []). simpl in *. lia.
Qed.

(** X7. The string returned has at most three characters for every
    four characters of the token. *)
Theorem deobf_result_size (encoded_url text : list Z) :
  __deobf encoded_url = Ok (PStr text) ->
  4 * len text <= 3 * len encoded_url.
Proof.
  rewrite deobf_unfold.
  destruct (b64decode (standardize encoded_url)) as [B|] eqn:EB; cbn [bind];
    [|discriminate].
  destruct (decode_utf8 (rc4 key_bytes B)) as [t|] eqn:Et; cbn [bind];
    [|discriminate].
  intros H. injection H as <-.
  apply b64decode_size in EB. apply decode_utf8_size in Et.
  rewrite len_rc4 in Et. pose proof (unquote_size t) as Hu.
  assert (Hs : len (standardize encoded_url) = len encoded_url)
    by (rewrite standardize_map; unfold len; now rewrite length_map).
  lia.
Qed.

Lemma deobf_result_size_witness :
  4 * len (str "https://example.com/video?id=42")
  <= 3 * len (str "VfxvGYo3N8o0TmiOb5v3B6zRHOebv_ZqdjLzI3YEknENoxgTOw==").
Proof.
  apply deobf_result_size. vm_compute. reflexivity.
Defined.

(** * The scraper's other methods *)

Example demo_search :
  search (str "matrix") 20 demo_start
  = ([demo_movie], Returned tt,
     ([str "https://vidsrc.to/embed/tv/1399/1/1";
       str "https://vidsrc.to/embed/movie/603"],
      set_search_cache init
        [(str "603", demo_site (str "https://vidsrc.to/embed/movie/603"))])).
Proof. vm_compute. reflexivity. Qed.

Example demo_scrape :
  scrape demo_movie {| episode := 1; season := 1 |}
    (snd (search (str "matrix") 20 demo_start))
  = (Returned (Movie (PStr (str "https://example.com/video?id=42"))
                 (str "The Matrix") 1999),
     ([str "https://vidsrc.to/embed/tv/1399/1/1";
       str "https://vidsrc.to/embed/movie/603";
       str "https://vidsrc.to/ajax/embed/episode/abc/sources";
       str "https://vidsrc.to/ajax/embed/source/v1"],
      init)).
Proof. vm_compute. reflexivity. Qed.

Section MethodProperties.
Context {H : HostTypes} {C : Collaborators}.

(** ** The dict *)

Lemma dict_get_set_eq {V : Type} (d : list (list Z * V)) k v :
  dict_get (dict_set d k v) k = Some v.
Proof.
  induction d as [|[k' v'] d IH]; cbn [dict_set dict_get].
  - now rewrite decide_True.
  - destruct (decide (k' = k)) as [->|N]; cbn [dict_get].
    + now rewrite decide_True.
    + now rewrite decide_False.
Qed.

Lemma dict_get_set_ne {V : Type} (d : list (list Z * V)) k k' v :
  k <> k' -> dict_get (dict_set d k v) k' = dict_get d k'.
Proof.
  intros N. induction d as [|[k0 v0] d IH]; cbn [dict_set dict_get].
  - now rewrite decide_False.
  - destruct (decide (k0 = k)) as [->|N0]; cbn [dict_get].
    + now rewrite !decide_False.
    + destruct (decide (k0 = k')); [reflexivity|exact IH].
Qed.

(** ** Actions that leave the object alone *)

Definition keeps_object {A : Type} (m : action A) : Prop :=
  forall st, snd (snd (m st)) = snd st.

Lemma ret_keeps {A : Type} (a : A) : keeps_object (ret a).
Proof. intros st. reflexivity. Qed.

Lemma raise_keeps {A : Type} (e : raised) : keeps_object (@raise _ A e).
Proof. intros st. reflexivity. Qed.

Lemma lift_keeps {A : Type} (o : outcome raised A) : keeps_object (lift o).
Proof. intros st. reflexivity. Qed.

Lemma pure_call_keeps {A : Type} (o : outcome Failure A) :
  keeps_object (pure_call o).
Proof. intros st. destruct o; reflexivity. Qed.

Lemma world_call_keeps {A : Type} (f : World -> outcome Failure A * World) :
  keeps_object (world_call f).
Proof. intros st. unfold world_call. destruct (f (fst st)) as [[a|e] w]; reflexivity. Qed.

Lemma and_then_keeps {A B : Type} (m : action A) (k : A -> action B) :
  keeps_object m -> (forall a, keeps_object (k a)) -> keeps_object (and_then m k).
Proof.
  intros Hm Hk st. unfold and_then. specialize (Hm st).
  destruct (m st) as [[a|e] st']; cbn [snd] in *; [|exact Hm].
  now rewrite Hk.
Qed.

Lemma scrape_response_keeps metadata selector embed_response :
  keeps_object (scrape_response metadata selector embed_response).
Proof.
  unfold scrape_response.
  apply and_then_keeps; [apply pure_call_keeps|]. intros [tag|]; [|apply raise_keeps].
  intros st.
  apply and_then_keeps; [apply world_call_keeps|]. intros response.
  apply and_then_keeps; [apply pure_call_keeps|]. intros sources_.
  apply and_then_keeps; [apply lift_keeps|]. intros result_.
  apply and_then_keeps; [apply lift_keeps|]. intros items.
  apply and_then_keeps; [apply lift_keeps|]. intros vidplay_id.
  destruct (negb (truthy vidplay_id)); [apply raise_keeps|].
  intros st1.
  apply and_then_keeps; [apply world_call_keeps|]. intros response'.
  apply and_then_keeps; [apply pure_call_keeps|]. intros body.
  apply and_then_keeps; [apply lift_keeps|]. intros result'.
  apply and_then_keeps; [apply lift_keeps|]. intros get_source.
  apply and_then_keeps; [apply lift_keeps|]. intros vidplay_url.
  apply and_then_keeps; [apply world_call_keeps|]. intros url.
  destruct (decide (metadata_type metadata = SERIES)); apply ret_keeps.
Qed.

(** ** [scrape] and the cache *)

(** [scrape] for an id that is not in the cache raises [KeyError] at
    once. *)
Lemma scrape_uncached (metadata : Metadata) (selector : EpisodeSelector)
    (st : state) :
  dict_get (search_cache Response (snd st)) (metadata_id metadata) = None ->
  scrape metadata selector st = (Raised (KeyError (metadata_id metadata)), st).
Proof. intros Hk. unfold scrape. now rewrite Hk. Qed.

Lemma scrape_cached_object (metadata : Metadata) (selector : EpisodeSelector)
    (st : state) :
  dict_get (search_cache Response (snd st)) (metadata_id metadata) <> None ->
  snd (snd (scrape metadata selector st)) = set_search_cache (snd st) [].
Proof.
  intros Hk. unfold scrape.
  destruct (dict_get _ _) as [embed_response|]; [|congruence].
  now rewrite scrape_response_keeps.
Qed.

(** X8. [scrape] for a cached id empties the cache, however it ends:
    with a result or with any exception, the object it leaves has the
    same three URL attributes and an empty cache. *)
Theorem scrape_clears_cache (metadata : Metadata) (selector : EpisodeSelector)
    (st : state) :
  dict_get (search_cache Response (snd st)) (metadata_id metadata) <> None ->
  snd (snd (scrape metadata selector st)) = set_search_cache (snd st) [].
Proof. apply scrape_cached_object. Qed.

(** X9. After [scrape] for a cached id, a second [scrape], for any
    metadata, raises [KeyError] and makes no request: every [scrape]
    needs a [search] before it. *)
Theorem scrape_twice (metadata metadata' : Metadata)
    (selector selector' : EpisodeSelector) (st : state) :
  dict_get (search_cache Response (snd st)) (metadata_id metadata) <> None ->
  scrape metadata' selector' (snd (scrape metadata selector st))
  = (Raised (KeyError (metadata_id metadata')), snd (scrape metadata selector st)).
Proof.
  intros Hk. apply scrape_uncached.
  now rewrite scrape_cached_object.
Qed.

(** ** The choice of the source *)

(** X10. The loop of lines 67-69 keeps the id of the last source titled
    "Vidplay": when such a source is followed only by sources with
    other titles, and the sources before it have a title (and an id,
    when titled "Vidplay"), [vidplay_id] ends as its id. *)
Theorem find_vidplay_last (before after : list json) (source id_ start : json) :
  Forall (fun x => exists t, json_getitem x (str "title") = Returned t
                   /\ (json_eq_str t (str "Vidplay") = true ->
                       exists i, json_getitem x (str "id") = Returned i))
         before ->
  json_getitem source (str "title") = Returned (JStr (str "Vidplay")) ->
  json_getitem source (str "id") = Returned id_ ->
  Forall (fun x => exists t, json_getitem x (str "title") = Returned t
                   /\ json_eq_str t (str "Vidplay") = false)
         after ->
  find_vidplay (before ++ source :: after) start = Returned id_.
Proof.
  intros Hb Ht Hi Ha. revert start.
  induction Hb as [|x before (t & Hxt & Hxi) _ IH]; intros start.
  - cbn [app find_vidplay]. rewrite Ht. cbn [json_eq_str].
    rewrite bool_decide_eq_true_2 by reflexivity. rewrite Hi.
    clear Ht Hi. revert id_. induction Ha as [|y after (t & Hyt & Hye) _ IH];
      intros id_; [reflexivity|].
    cbn [find_vidplay]. rewrite Hyt, Hye. apply IH.
  - cbn [app find_vidplay]. rewrite Hxt.
    destruct (json_eq_str t (str "Vidplay")) eqn:E; [|apply IH].
    destruct (Hxi eq_refl) as [i ->]. apply IH.
Qed.

Lemma find_vidplay_none (items : list json) (start : json) :
  Forall (fun x => exists t, json_getitem x (str "title") = Returned t
                   /\ json_eq_str t (str "Vidplay") = false)
         items ->
  find_vidplay items start = Returned start.
Proof.
  intros Hi. revert start.
  induction Hi as [|y items (t & Hyt & Hye) _ IH]; intros start; [reflexivity|].
  cbn [find_vidplay]. rewrite Hyt, Hye. apply IH.
Qed.

(** X11. When the cached page has no anchor with a [data-id], [scrape]
    raises [MediaNotFound] with the title, makes no request, and leaves
    the cache empty. *)
Theorem scrape_no_anchor (metadata : Metadata) (selector : EpisodeSelector)
    (st : state) (embed_response : Response) :
  dict_get (search_cache Response (snd st)) (metadata_id metadata)
    = Some embed_response ->
  soup_find_anchor embed_response = Returned None ->
  scrape metadata selector st
  = (Raised (MediaNotFound (metadata_title metadata)),
     (fst st, set_search_cache (snd st) [])).
Proof.
  intros Hk Ha. unfold scrape. rewrite Hk. unfold scrape_response, and_then.
  rewrite Ha. reflexivity.
Qed.

(** X12. When no source of the sources response is titled "Vidplay",
    [scrape] raises [MediaNotFound] with the title after that one
    request: the world is the one the sources request left, and the
    cache is empty. *)
Theorem scrape_no_vidplay (metadata : Metadata) (selector : EpisodeSelector)
    (st : state) (embed_response response : Response) (tag : Tag)
    (w' : World) (body result_ : json) (items : list json) :
  dict_get (search_cache Response (snd st)) (metadata_id metadata)
    = Some embed_response ->
  soup_find_anchor embed_response = Returned (Some tag) ->
  http_client_get (format1 (sources Response (snd st)) (tag_data_id tag)) (fst st)
    = (Returned response, w') ->
  response_json response = Returned body ->
  json_getitem body (str "result") = Returned result_ ->
  json_iter result_ = Returned items ->
  Forall (fun x => exists t, json_getitem x (str "title") = Returned t
                   /\ json_eq_str t (str "Vidplay") = false)
         items ->
  scrape metadata selector st
  = (Raised (MediaNotFound (metadata_title metadata)),
     (w', set_search_cache (snd st) [])).
Proof.
  intros Hk Ha Hg Hj Hr Hi Hn. unfold scrape. rewrite Hk.
  unfold scrape_response, and_then. rewrite Ha. cbn [pure_call ret].
  unfold world_call. cbn [fst snd set_search_cache sources].
  rewrite Hg, Hj. cbn [pure_call ret lift]. rewrite Hr, Hi.
  rewrite (find_vidplay_none items JNull Hn). reflexivity.
Qed.

(** ** What [scrape] returns *)

Lemma and_then_returned {A B : Type} (m : action A) (k : A -> action B) st b st' :
  and_then m k st = (Returned b, st') ->
  exists a st1, m st = (Returned a, st1) /\ k a st1 = (Returned b, st').
Proof.
  unfold and_then. destruct (m st) as [[a|e] st1]; [eauto|discriminate].
Qed.

(** X13. A result of [scrape] is a [Series] carrying the selector it
    was given when the metadata is of type [SERIES], and otherwise a
    [Movie] carrying the metadata's year; either carries the
    metadata's title. *)
Theorem scrape_returns (metadata : Metadata) (selector : EpisodeSelector)
    (st st' : state) (m : media) :
  scrape metadata selector st = (Returned m, st') ->
  exists url,
    m = if decide (metadata_type metadata = SERIES)
        then Series url (metadata_title metadata) selector
        else Movie url (metadata_title metadata) (metadata_year metadata).
Proof.
  unfold scrape. destruct (dict_get _ _) as [embed_response|]; [|discriminate].
  unfold scrape_response. intros Hs.
  apply and_then_returned in Hs as ([tag|] & st1 & _ & Hs); [|discriminate].
  apply and_then_returned in Hs as (response & st2 & _ & Hs).
  apply and_then_returned in Hs as (sources_ & st3 & _ & Hs).
  apply and_then_returned in Hs as (result_ & st4 & _ & Hs).
  apply and_then_returned in Hs as (items & st5 & _ & Hs).
  apply and_then_returned in Hs as (vidplay_id & st6 & _ & Hs).
  destruct (negb (truthy vidplay_id)); [discriminate|].
  apply and_then_returned in Hs as (response' & st7 & _ & Hs).
  apply and_then_returned in Hs as (body & st8 & _ & Hs).
  apply and_then_returned in Hs as (result' & st9 & _ & Hs).
  apply and_then_returned in Hs as (get_source & st10 & _ & Hs).
  apply and_then_returned in Hs as (vidplay_url & st11 & _ & Hs).
  apply and_then_returned in Hs as (url & st12 & _ & Hs).
  exists url. destruct (decide (metadata_type metadata = SERIES));
    now injection Hs as <- _.
Qed.

(** ** [search] and the cache *)

Lemma generator_induction {W E X : Type} (P : generator W E X -> Prop) :
  (forall next,
     (forall w, match next w with Yield _ _ rest => P rest | _ => True end) ->
     P (Gen next)) ->
  forall g, P g.
Proof.
  intros Hgen. fix IH 1. intros [next]. apply Hgen. intros w.
  destruct (next w) as [w'|e w'|x w' rest]; [exact I|exact I|apply IH].
Qed.

Lemma get_embed_keeps metadata selector : keeps_object (get_embed metadata selector).
Proof. intros st. unfold get_embed. apply world_call_keeps. Qed.

(** A property of the cache that every store of a response other than
    a 404 keeps is kept by [search]. *)
Lemma search_from_invariant (I : list (list Z * Response) -> Prop) :
  (forall cache k r, I cache -> status_code r <> 404 -> I (dict_set cache k r)) ->
  forall results st,
    I (search_cache Response (snd st)) ->
    I (search_cache Response (snd (snd (search_from results st)))).
Proof.
  intros Hset results. induction results as [next IH] using generator_induction.
  intros st HI. cbn [search_from]. specialize (IH (fst st)).
  destruct (next (fst st)) as [w|e w|search_result w rest]; [exact HI|exact HI|].
  pose proof (get_embed_keeps search_result EpisodeSelector_default (w, snd st)) as Hk.
  destruct (get_embed search_result EpisodeSelector_default (w, snd st))
    as [[embed_response|e] st1]; cbn [fst snd] in *; [|now rewrite Hk].
  destruct (Z.eqb_spec (status_code embed_response) 404) as [E|E].
  - apply IH. now rewrite Hk.
  - specialize (IH (fst st1,
                    set_search_cache (snd st1)
                      (dict_set (search_cache Response (snd st1))
                         (metadata_id search_result) embed_response))).
    destruct (search_from rest _) as [[yielded end_] st2]. cbn [snd] in *.
    apply IH. apply Hset; [now rewrite Hk|exact E].
Qed.

Lemma search_from_attributes results :
  forall st,
    set_search_cache (snd (snd (search_from results st))) []
    = set_search_cache (snd st) [].
Proof.
  induction results as [next IH] using generator_induction.
  intros st. cbn [search_from]. specialize (IH (fst st)).
  destruct (next (fst st)) as [w|e w|search_result w rest];
    [reflexivity|reflexivity|].
  pose proof (get_embed_keeps search_result EpisodeSelector_default (w, snd st)) as Hk.
  destruct (get_embed search_result EpisodeSelector_default (w, snd st))
    as [[embed_response|e] st1]; cbn [fst snd] in *; [|now rewrite Hk].
  destruct (status_code embed_response =? 404); [now rewrite IH, Hk|].
  specialize (IH (fst st1,
                  set_search_cache (snd st1)
                    (dict_set (search_cache Response (snd st1))
                       (metadata_id search_result) embed_response))).
  destruct (search_from rest _) as [[yielded end_] st2]. cbn [fst snd] in *.
  now rewrite IH, <- Hk.
Qed.

(** X14. [search] removes nothing from the cache, never stores a 404
    response and leaves the three URL attributes: an id cached before
    is cached after, and if no cached response had status 404 before,
    none has after. *)
Theorem search_keeps_cache (query : list Z) (limit : Z) (st : state) :
  set_search_cache (snd (snd (search query limit st))) []
  = set_search_cache (snd st) []
  /\ (forall k, dict_get (search_cache Response (snd st)) k <> None ->
             dict_get (search_cache Response
                         (snd (snd (search query limit st)))) k <> None)
  /\ ((forall k r, dict_get (search_cache Response (snd st)) k = Some r ->
                   status_code r <> 404) ->
      forall k r, dict_get (search_cache Response
                              (snd (snd (search query limit st)))) k = Some r ->
                  status_code r <> 404).
Proof.
  unfold search. split; [apply search_from_attributes|]. split.
  - intros k.
    apply (search_from_invariant (fun cache => dict_get cache k <> None)).
    intros cache k' r Hc _. destruct (decide (k' = k)) as [->|N].
    + now rewrite dict_get_set_eq.
    + now rewrite dict_get_set_ne.
  - apply (search_from_invariant
             (fun cache => forall k r, dict_get cache k = Some r ->
                                       status_code r <> 404)).
    intros cache k' r' Hc Hr k r. destruct (decide (k' = k)) as [->|N].
    + rewrite dict_get_set_eq. now intros [= <-].
    + rewrite dict_get_set_ne by assumption. apply Hc.
Qed.

Lemma search_from_yielded results :
  forall st metadata,
    In metadata (fst (fst (search_from results st))) ->
    exists r,
      dict_get (search_cache Response (snd (snd (search_from results st))))
        (metadata_id metadata) = Some r
      /\ status_code r <> 404.
Proof.
  induction results as [next IH] using generator_induction.
  intros st metadata. cbn [search_from]. specialize (IH (fst st)).
  destruct (next (fst st)) as [w|e w|search_result w rest];
    [intros []|intros []|].
  destruct (get_embed search_result EpisodeSelector_default (w, snd st))
    as [[embed_response|e] st1]; [|intros []].
  destruct (Z.eqb_spec (status_code embed_response) 404) as [E|E];
    [apply IH|].
  pose proof (search_from_invariant
    (fun cache => exists r, dict_get cache (metadata_id search_result) = Some r
                            /\ status_code r <> 404)) as Hinv.
  specialize (Hinv
    ltac:(intros cache k r (r0 & Hr0 & Hs0) Hr;
          destruct (decide (k = metadata_id search_result)) as [->|N];
          [exists r; now rewrite dict_get_set_eq
          |exists r0; now rewrite dict_get_set_ne]) rest).
  specialize (Hinv (fst st1,
                    set_search_cache (snd st1)
                      (dict_set (search_cache Response (snd st1))
                         (metadata_id search_result) embed_response))).
  specialize (IH (fst st1,
                  set_search_cache (snd st1)
                    (dict_set (search_cache Response (snd st1))
                       (metadata_id search_result) embed_response)) metadata).
  destruct (search_from rest _) as [[yielded end_] st2]. cbn [fst snd] in *.
  intros [<-|Hin]; [|now apply IH].
  apply Hinv. cbn [set_search_cache search_cache snd].
  exists embed_response. now rewrite dict_get_set_eq.
Qed.

(** X15. Every item [search] yields is in the cache when the generator
    ends, with a response whose status is not 404; so [scrape] for it
    finds a response, and runs on one that is not a 404. *)
Theorem search_then_scrape (query : list Z) (limit : Z) (st : state)
    (metadata : Metadata) (selector : EpisodeSelector) :
  In metadata (fst (fst (search query limit st))) ->
  exists embed_response,
    dict_get (search_cache Response (snd (snd (search query limit st))))
      (metadata_id metadata) = Some embed_response
    /\ status_code embed_response <> 404
    /\ scrape metadata selector (snd (search query limit st))
       = scrape_response metadata selector embed_response
           (fst (snd (search query limit st)),
            set_search_cache (snd (snd (search query limit st))) []).
Proof.
  intros Hin. unfold search in *.
  destruct (search_from_yielded _ _ _ Hin) as (r & Hr & Hs).
  exists r. split; [exact Hr|]. split; [exact Hs|].
  unfold scrape. now rewrite Hr.
Qed.

Lemma search_from_keys results :
  forall st k,
    dict_get (search_cache Response (snd (snd (search_from results st)))) k
      <> None ->
    dict_get (search_cache Response (snd st)) k <> None
    \/ In k (map metadata_id (fst (fst (search_from results st)))).
Proof.
  induction results as [next IH] using generator_induction.
  intros st k. cbn [search_from]. specialize (IH (fst st)).
  destruct (next (fst st)) as [w|e w|search_result w rest]; [now left|now left|].
  pose proof (get_embed_keeps search_result EpisodeSelector_default (w, snd st)) as Hk.
  destruct (get_embed search_result EpisodeSelector_default (w, snd st))
    as [[embed_response|e] st1]; cbn [fst snd] in *; [|rewrite Hk; now left].
  destruct (Z.eqb_spec (status_code embed_response) 404) as [E|E].
  - intros Hc. apply IH in Hc. now rewrite Hk in Hc.
  - specialize (IH (fst st1,
                    set_search_cache (snd st1)
                      (dict_set (search_cache Response (snd st1))
                         (metadata_id search_result) embed_response)) k).
    destruct (search_from rest _) as [[yielded end_] st2]. cbn [fst snd] in *.
    intros Hc. destruct (IH Hc) as [Hc'|Hin]; [|right; now right].
    cbn [set_search_cache search_cache snd] in Hc'.
    destruct (decide (metadata_id search_result = k)) as [<-|N].
    + right. now left.
    + rewrite dict_get_set_ne, Hk in Hc' by assumption. now left.
Qed.

(** X16. [search] stores under the ids of the items it yields and under
    no other: an id cached when the generator ends was cached before or
    is the id of a yielded item. *)
Theorem search_stores_yielded (query : list Z) (limit : Z) (st : state) (k : list Z) :
  dict_get (search_cache Response (snd (snd (search query limit st)))) k <> None ->
  dict_get (search_cache Response (snd st)) k <> None
  \/ In k (map metadata_id (fst (fst (search query limit st)))).
Proof. apply search_from_keys. Qed.

End MethodProperties.

(** ** The properties on the small world *)

Lemma scrape_clears_cache_witness :
  snd (snd (scrape demo_movie {| episode := 1; season := 1 |}
              (snd (search (str "matrix") 20 demo_start))))
  = set_search_cache (snd (snd (search (str "matrix") 20 demo_start))) [].
Proof. apply scrape_clears_cache. vm_compute. discriminate. Defined.

Lemma scrape_twice_witness :
  scrape demo_series {| episode := 2; season := 1 |}
    (snd (scrape demo_movie {| episode := 1; season := 1 |}
            (snd (search (str "matrix") 20 demo_start))))
  = (Raised (KeyError (str "1399")),
     snd (scrape demo_movie {| episode := 1; season := 1 |}
            (snd (search (str "matrix") 20 demo_start)))).
Proof.
  apply (scrape_twice demo_movie demo_series). vm_compute. discriminate.
Defined.

Lemma find_vidplay_last_witness :
  find_vidplay
    ([JDict [(str "title", JStr (str "F2Cloud")); (str "id", JStr (str "f9"))];
      JDict [(str "title", JStr (str "Vidplay")); (str "id", JStr (str "v0"))]]
     ++ JDict [(str "title", JStr (str "Vidplay")); (str "id", JStr (str "v1"))]
     :: [JDict [(str "title", JStr (str "Filemoon")); (str "id", JStr (str "m3"))]])
    JNull
  = Returned (JStr (str "v1")).
Proof.
  apply find_vidplay_last.
  - apply Forall_cons. split.
    + eexists. split; [reflexivity|]. intros _. eexists. reflexivity.
    + apply Forall_cons. split; [|apply Forall_nil_2].
      eexists. split; [reflexivity|]. intros _. eexists. reflexivity.
  - reflexivity.
  - reflexivity.
  - apply Forall_cons. split; [|apply Forall_nil_2].
    eexists. split; reflexivity.
Defined.

Lemma scrape_no_anchor_witness :
  scrape demo_series {| episode := 1; season := 1 |}
    (demo_cached (str "1399") (str "https://vidsrc.to/embed/tv/1399/1/1"))
  = (Raised (MediaNotFound (str "Game of Thrones")), demo_start).
Proof.
  exact (scrape_no_anchor demo_series {| episode := 1; season := 1 |}
           (demo_cached (str "1399") (str "https://vidsrc.to/embed/tv/1399/1/1"))
           (demo_site (str "https://vidsrc.to/embed/tv/1399/1/1"))
           eq_refl eq_refl).
Defined.

Lemma scrape_no_vidplay_witness :
  scrape {| metadata_id := str "604"; metadata_title := str "Other";
            metadata_type := DemoMovie; metadata_year := 2001 |}
    {| episode := 1; season := 1 |}
    (demo_cached (str "604") (str "https://vidsrc.to/embed/movie/604"))
  = (Raised (MediaNotFound (str "Other")),
     ([str "https://vidsrc.to/ajax/embed/episode/xyz/sources"], snd demo_start)).
Proof.
  refine (scrape_no_vidplay
            {| metadata_id := str "604"; metadata_title := str "Other";
               metadata_type := DemoMovie; metadata_year := 2001 |}
            {| episode := 1; season := 1 |}
            (demo_cached (str "604") (str "https://vidsrc.to/embed/movie/604"))
            (demo_site (str "https://vidsrc.to/embed/movie/604"))
            (demo_site (str "https://vidsrc.to/ajax/embed/episode/xyz/sources"))
            (str "xyz")
            [str "https://vidsrc.to/ajax/embed/episode/xyz/sources"]
            _ _ _
            eq_refl eq_refl eq_refl eq_refl eq_refl eq_refl _).
  apply Forall_cons. split; [|apply Forall_nil_2].
  eexists. split; reflexivity.
Defined.

Lemma scrape_returns_witness :
  exists url,
    Movie (PStr (str "https://example.com/video?id=42")) (str "The Matrix") 1999
    = if decide (metadata_type demo_movie = SERIES)
      then Series url (metadata_title demo_movie) {| episode := 1; season := 1 |}
      else Movie url (metadata_title demo_movie) (metadata_year demo_movie).
Proof.
  eapply (@scrape_returns demo_types demo demo_movie {| episode := 1; season := 1 |}
            (snd (search (str "matrix") 20 demo_start))).
  vm_compute. reflexivity.
Defined.

Lemma search_keeps_cache_witness :
  dict_get
    (search_cache Response
       (snd (snd (search (str "matrix") 20
                    (demo_cached (str "604")
                       (str "https://vidsrc.to/embed/movie/604"))))))
    (str "604") <> None.
Proof.
  apply (proj1 (proj2 (search_keeps_cache (str "matrix") 20
                         (demo_cached (str "604")
                            (str "https://vidsrc.to/embed/movie/604"))))).
  vm_compute. discriminate.
Defined.

Lemma search_then_scrape_witness :
  exists embed_response,
    dict_get (search_cache Response
                (snd (snd (search (str "matrix") 20 demo_start))))
      (metadata_id demo_movie) = Some embed_response
    /\ status_code embed_response <> 404
    /\ scrape demo_movie {| episode := 1; season := 1 |}
         (snd (search (str "matrix") 20 demo_start))
       = scrape_response demo_movie {| episode := 1; season := 1 |} embed_response
           (fst (snd (search (str "matrix") 20 demo_start)),
            set_search_cache (snd (snd (search (str "matrix") 20 demo_start))) []).
Proof.
  apply search_then_scrape. vm_compute. left. reflexivity.
Defined.

Lemma search_stores_yielded_witness :
  dict_get (search_cache Response (snd demo_start)) (str "603") <> None
  \/ In (str "603")
        (map metadata_id (fst (fst (search (str "matrix") 20 demo_start)))).
Proof.
  apply (search_stores_yielded (str "matrix") 20 demo_start).
  vm_compute. discriminate.
Defined.
